(** * GameSimulator: a tick-driven duel simulator and its Monte-Carlo tally

    Shallow embedding of [GameSimulator.py] ([Character], [run_simulation],
    [plot_average_health]) and the properties its specification states.

    Modelling conventions.
    - Python [int] is [Z] (health, attack power, healing, damage) or [nat]
      (counters that start at 0 and are only incremented).
    - Python [float] is modelled by exact rationals [Q]; rounding of binary
      floating point is outside the model.  [int(x)] on a float truncates
      toward zero and is [int_of_float].
    - The module-level generator of [random] is an explicit tape of draws,
      threaded through every stochastic call.
    - [defaultdict(list)] is a [gmap nat (list Z)] whose missing keys read
      as the empty list.
    - The [while] loop of a fight has no bound in the source; it is run with
      fuel, and running out of fuel is reported as [OutOfFuel]. *)

From Stdlib Require Import ZArith QArith Qround Qabs Qminmax Lia Lqa List Bool
  String.
From stdpp Require Import base option list strings gmap fin_maps sorting.

Local Open Scope Z_scope.

(** ** Floats as rationals *)

Module Float.

Definition ltb (x y : Q) : bool := negb (Qle_bool y x).
Definition leb (x y : Q) : bool := Qle_bool x y.

(** [int(x)]: truncation toward zero. *)
Definition int_of_float (x : Q) : Z := Z.quot (Qnum x) (Zpos (Qden x)).

Definition of_int (n : Z) : Q := inject_Z n.

End Float.

(** ** The random source

    [random.random()] reads the next cell of the tape as a uniform draw;
    [random.gauss(mu, sigma)] reads the next cell as a standard normal draw
    [z] and returns [mu + z * sigma]. *)

Record Rng := { tape : nat -> Q; cursor : nat }.

Definition next (r : Rng) : Rng :=
  {| tape := tape r; cursor := S (cursor r) |}.

Definition random (r : Rng) : Q * Rng := (tape r (cursor r), next r).

Definition gauss (mu sigma : Q) (r : Rng) : Q * Rng :=
  ((mu + tape r (cursor r) * sigma)%Q, next r).

(** A tape that replays a finite script and then repeats [d]. *)
Definition script (l : list Q) (d : Q) : Rng :=
  {| tape := fun n => nth n l d; cursor := 0 |}.

(** ** Character *)

Record Params := {
  p_attack_power : Z;
  p_health : Z;
  p_healing : Z;
  p_attack_cooldown : Q;
  p_healing_cooldown : Q
}.

Record Character := {
  name : string;
  attack_power : Z;
  healing : Z;
  max_health : Z;
  health : Z;
  attack_cooldown : Q;
  healing_cooldown : Q;
  time_until_attack : Q;
  time_until_heal : Q
}.

(** [Character.__init__] *)
Definition init (n : string) (p : Params) : Character :=
  {| name := n;
     attack_power := p_attack_power p;
     healing := p_healing p;
     max_health := p_health p;
     health := p_health p;
     attack_cooldown := p_attack_cooldown p;
     healing_cooldown := p_healing_cooldown p;
     time_until_attack := 0.0;
     time_until_heal := 0.0 |}.

Definition set_health (h : Z) (c : Character) : Character :=
  {| name := name c; attack_power := attack_power c; healing := healing c;
     max_health := max_health c; health := h;
     attack_cooldown := attack_cooldown c;
     healing_cooldown := healing_cooldown c;
     time_until_attack := time_until_attack c;
     time_until_heal := time_until_heal c |}.

Definition set_time_until_attack (t : Q) (c : Character) : Character :=
  {| name := name c; attack_power := attack_power c; healing := healing c;
     max_health := max_health c; health := health c;
     attack_cooldown := attack_cooldown c;
     healing_cooldown := healing_cooldown c;
     time_until_attack := t;
     time_until_heal := time_until_heal c |}.

Definition set_time_until_heal (t : Q) (c : Character) : Character :=
  {| name := name c; attack_power := attack_power c; healing := healing c;
     max_health := max_health c; health := health c;
     attack_cooldown := attack_cooldown c;
     healing_cooldown := healing_cooldown c;
     time_until_attack := time_until_attack c;
     time_until_heal := t |}.

(** The miss threshold of both actions. *)
Definition MISS : Q := 0.05.

(** [Character.attack]: the method assigns no attribute, so the model has
    no [Character] output; it returns the damage and the advanced tape. *)
Definition attack (c : Character) (r : Rng) : Z * Rng :=
  let (u, r1) := random r in
  if Float.ltb u MISS then (0, r1)
  else
    let (g, r2) := gauss (Float.of_int (attack_power c)) 8 r1 in
    let base_damage := Float.int_of_float g in
    (Z.max 0 base_damage, r2).

(** [Character.heal]: on a miss it returns [self.health]; otherwise it
    assigns [self.health] and falls off the end (returns [None]). *)
Definition heal (c : Character) (r : Rng) : option Z * Character * Rng :=
  let (u, r1) := random r in
  if Float.ltb u MISS then (Some (health c), c, r1)
  else
    let (heal_variance, r2) := gauss 1.0 0.2 r1 in
    let healing_amount :=
      Float.int_of_float (Float.of_int (healing c) * heal_variance)%Q in
    (None,
     set_health (Z.min (health c + healing_amount) (max_health c)) c,
     r2).

(** ** One fight

    The locals of [run_simulation] that a fight reads and writes, the
    generator, and two ghost fields: [guard_health] remembers the healths
    the loop guard saw when the current iteration was entered, and [trace]
    lists the actions performed so far. *)

Inductive side := SideA | SideB.
Inductive action := Attack | Heal.

Record event := {
  ev_tick : nat;          (* iteration in which the action happened *)
  ev_side : side;         (* who acted *)
  ev_action : action;
  ev_health : Z;          (* the actor's own health when it acted *)
  ev_guard_a : Z;         (* healths seen by the guard of that iteration *)
  ev_guard_b : Z
}.

Abbreviation history := (gmap nat (list Z)).

Record State := {
  rng : Rng;
  a : Character;
  b : Character;
  current_time : Q;
  tick_count : nat;
  health_history_a : history;
  health_history_b : history;
  guard_health : Z * Z;
  trace : list event
}.

Definition TICK_LENGTH : Q := 0.1.

(** [d[k].append(x)] on a [defaultdict(list)]. *)
Definition dd_get (d : history) (k : nat) : list Z := default [] (d !! k).
Definition dd_append (k : nat) (x : Z) (d : history) : history :=
  <[k := dd_get d k ++ [x]]> d.

Definition set_rng (r : Rng) (s : State) : State :=
  {| rng := r; a := a s; b := b s; current_time := current_time s;
     tick_count := tick_count s;
     health_history_a := health_history_a s;
     health_history_b := health_history_b s;
     guard_health := guard_health s; trace := trace s |}.

Definition set_a (c : Character) (s : State) : State :=
  {| rng := rng s; a := c; b := b s; current_time := current_time s;
     tick_count := tick_count s;
     health_history_a := health_history_a s;
     health_history_b := health_history_b s;
     guard_health := guard_health s; trace := trace s |}.

Definition set_b (c : Character) (s : State) : State :=
  {| rng := rng s; a := a s; b := c; current_time := current_time s;
     tick_count := tick_count s;
     health_history_a := health_history_a s;
     health_history_b := health_history_b s;
     guard_health := guard_health s; trace := trace s |}.

Definition who (x : side) (s : State) : Character :=
  match x with SideA => a s | SideB => b s end.

(** Ghost: note the healths the guard has just accepted. *)
Definition enter (s : State) : State :=
  {| rng := rng s; a := a s; b := b s; current_time := current_time s;
     tick_count := tick_count s;
     health_history_a := health_history_a s;
     health_history_b := health_history_b s;
     guard_health := (health (a s), health (b s)); trace := trace s |}.

(** Ghost: append an action of [x] to the trace. *)
Definition logged (s : State) (x : side) (k : action) : event :=
  {| ev_tick := tick_count s; ev_side := x; ev_action := k;
     ev_health := health (who x s);
     ev_guard_a := fst (guard_health s);
     ev_guard_b := snd (guard_health s) |}.

Definition log (x : side) (k : action) (s : State) : State :=
  {| rng := rng s; a := a s; b := b s; current_time := current_time s;
     tick_count := tick_count s;
     health_history_a := health_history_a s;
     health_history_b := health_history_b s;
     guard_health := guard_health s;
     trace := trace s ++ [logged s x k] |}.

(** [health_history_a[tick_count].append(a.health)] and the same for B. *)
Definition record_health (s : State) : State :=
  {| rng := rng s; a := a s; b := b s; current_time := current_time s;
     tick_count := tick_count s;
     health_history_a :=
       dd_append (tick_count s) (health (a s)) (health_history_a s);
     health_history_b :=
       dd_append (tick_count s) (health (b s)) (health_history_b s);
     guard_health := guard_health s; trace := trace s |}.

(** [damage = a.attack(); b.health -= damage;
     a.time_until_attack = a.attack_cooldown] *)
Definition a_attack (s : State) : State :=
  let s := log SideA Attack s in
  let (damage, r) := attack (a s) (rng s) in
  let s := set_rng r s in
  let s := set_b (set_health (health (b s) - damage) (b s)) s in
  set_a (set_time_until_attack (attack_cooldown (a s)) (a s)) s.

(** [a.heal(); a.time_until_heal = a.healing_cooldown] *)
Definition a_heal (s : State) : State :=
  let s := log SideA Heal s in
  let '(_, c, r) := heal (a s) (rng s) in
  let s := set_a c (set_rng r s) in
  set_a (set_time_until_heal (healing_cooldown (a s)) (a s)) s.

Definition b_attack (s : State) : State :=
  let s := log SideB Attack s in
  let (damage, r) := attack (b s) (rng s) in
  let s := set_rng r s in
  let s := set_a (set_health (health (a s) - damage) (a s)) s in
  set_b (set_time_until_attack (attack_cooldown (b s)) (b s)) s.

Definition b_heal (s : State) : State :=
  let s := log SideB Heal s in
  let '(_, c, r) := heal (b s) (rng s) in
  let s := set_b c (set_rng r s) in
  set_b (set_time_until_heal (healing_cooldown (b s)) (b s)) s.

(** The four guards of the loop body. *)
Definition attack_due (c : Character) : bool :=
  Float.leb (time_until_attack c) 0.
Definition heal_due (c : Character) : bool :=
  Float.leb (time_until_heal c) 0 && (0 <? healing c).

Definition cool (c : Character) : Character :=
  set_time_until_heal (time_until_heal c - TICK_LENGTH)%Q
    (set_time_until_attack (time_until_attack c - TICK_LENGTH)%Q c).

(** [current_time += TICK_LENGTH; tick_count += 1] and the four timers. *)
Definition advance (s : State) : State :=
  {| rng := rng s; a := cool (a s); b := cool (b s);
     current_time := (current_time s + TICK_LENGTH)%Q;
     tick_count := S (tick_count s);
     health_history_a := health_history_a s;
     health_history_b := health_history_b s;
     guard_health := guard_health s; trace := trace s |}.

Definition when (c : bool) (f : State -> State) (s : State) : State :=
  if c then f s else s.

(** The body of the [while] loop. *)
Definition tick (track_health : bool) (s : State) : State :=
  let s := enter s in
  let s := when track_health record_health s in
  let s := when (attack_due (a s)) a_attack s in
  let s := when (heal_due (a s)) a_heal s in
  let s := when (attack_due (b s)) b_attack s in
  let s := when (heal_due (b s)) b_heal s in
  advance s.

(** [while a.health > 0 and b.health > 0] *)
Definition alive (s : State) : bool :=
  (0 <? health (a s)) && (0 <? health (b s)).

Fixpoint fight (fuel : nat) (track_health : bool) (s : State) : option State :=
  if alive s then
    match fuel with
    | O => None
    | S fuel' => fight fuel' track_health (tick track_health s)
    end
  else Some s.

(** ** The tally over all matches *)

Inductive exn := ZeroDivisionError.

Inductive result (A : Type) :=
| Ok (x : A)
| Raise (e : exn)
| OutOfFuel.
Arguments Ok {A} x.
Arguments Raise {A} e.
Arguments OutOfFuel {A}.

Definition bind {A B} (m : result A) (f : A -> result B) : result B :=
  match m with
  | Ok x => f x
  | Raise e => Raise e
  | OutOfFuel => OutOfFuel
  end.

Notation "'let*' x ':=' m 'in' k" := (bind m (fun x => k))
  (at level 10, x name, m at level 100, k at level 200).

(** Python's [/] on two integers. *)
Definition truediv (x y : Z) : result Q :=
  if y =? 0 then Raise ZeroDivisionError
  else Ok (Float.of_int x / Float.of_int y)%Q.

(** Ghost summary of one finished match. *)
Record match_log := {
  ml_ticks : nat;          (* iterations of the loop *)
  ml_health_a : Z;         (* final healths *)
  ml_health_b : Z;
  ml_events : list event
}.

(** The locals of [run_simulation] that outlive a match, the generator,
    and the ghost list of finished matches. *)
Record Tally := {
  wins_a : nat;
  wins_b : nat;
  histories : history * history;
  generator : Rng;
  matches : list match_log
}.

(** The [if]/[elif] that follows the loop. *)
Definition award (ha hb : Z) (w : nat * nat) : nat * nat :=
  if (hb <? ha) && (0 <? ha) then (S (fst w), snd w)
  else if (ha <? hb) && (0 <? hb) then (fst w, S (snd w))
  else w.

Definition start (char_a_params char_b_params : Params) (t : Tally) : State :=
  {| rng := generator t;
     a := init "A" char_a_params;
     b := init "B" char_b_params;
     current_time := 0.0;
     tick_count := 0;
     health_history_a := fst (histories t);
     health_history_b := snd (histories t);
     guard_health := (0, 0);
     trace := [] |}.

Definition finish (s : State) (t : Tally) : Tally :=
  let w := award (health (a s)) (health (b s)) (wins_a t, wins_b t) in
  {| wins_a := fst w;
     wins_b := snd w;
     histories := (health_history_a s, health_history_b s);
     generator := rng s;
     matches := matches t ++
       [{| ml_ticks := tick_count s;
           ml_health_a := health (a s);
           ml_health_b := health (b s);
           ml_events := trace s |}] |}.

(** The body of [for _ in range(num_matches)]. *)
Definition one_match (fuel : nat) (char_a_params char_b_params : Params)
    (track_health : bool) (t : Tally) : result Tally :=
  match fight fuel track_health (start char_a_params char_b_params t) with
  | Some s => Ok (finish s t)
  | None => OutOfFuel
  end.

Fixpoint play (n : nat) (fuel : nat) (char_a_params char_b_params : Params)
    (track_health : bool) (t : Tally) : result Tally :=
  match n with
  | O => Ok t
  | S n' =>
      let* t' := one_match fuel char_a_params char_b_params track_health t in
      play n' fuel char_a_params char_b_params track_health t'
  end.

Definition fresh (r : Rng) : Tally :=
  {| wins_a := 0; wins_b := 0; histories := (∅, ∅);
     generator := r; matches := [] |}.

(** The loop over [range(num_matches)]: empty when [num_matches <= 0]. *)
Definition simulate (fuel : nat) (char_a_params char_b_params : Params)
    (num_matches : Z) (track_health : bool) (r : Rng) : result Tally :=
  play (Z.to_nat num_matches) fuel char_a_params char_b_params
    track_health (fresh r).

(** The tail of [run_simulation]. *)
Definition win_rate (wa wb : nat) : result Q :=
  let total_decisive_matches := (wa + wb)%nat in
  if (0 <? Z.of_nat total_decisive_matches) then
    let* q := truediv (Z.of_nat wa) (Z.of_nat total_decisive_matches) in
    Ok (q * 100)%Q
  else Ok 50.0%Q.

(** [run_simulation]: the win rate, and the two histories when tracking. *)
Definition run_simulation (fuel : nat) (char_a_params char_b_params : Params)
    (num_matches : Z) (track_health : bool) (r : Rng)
    : result (Q * option (history * history)) :=
  let* t :=
    simulate fuel char_a_params char_b_params num_matches track_health r in
  let* win_rate_a := win_rate (wins_a t) (wins_b t) in
  Ok (win_rate_a, if track_health then Some (histories t) else None).

(** ** The trajectory summary of [plot_average_health] *)

Definition sum (l : list Z) : Z := foldr Z.add 0 l.

(** [sum(h[tick]) / len(h[tick])] *)
Definition mean (h : history) (tick : nat) : result Q :=
  truediv (sum (dd_get h tick)) (Z.of_nat (length (dd_get h tick))).

Fixpoint traverse {A B} (f : A -> result B) (l : list A) : result (list B) :=
  match l with
  | [] => Ok []
  | x :: l' => let* y := f x in let* ys := traverse f l' in Ok (y :: ys)
  end.

(** [sorted(h.keys())] *)
Definition sorted_keys (h : history) : list nat :=
  merge_sort Nat.le (map fst (map_to_list h)).

(** The three series handed to the plot: ticks and the two averages. *)
Definition averages (ha hb : history) : result (list nat * list Q * list Q) :=
  let ticks := sorted_keys ha in
  let* avg_health_a := traverse (mean ha) ticks in
  let* avg_health_b := traverse (mean hb) ticks in
  Ok (ticks, avg_health_a, avg_health_b).

Definition plot_average_health (fuel : nat)
    (char_a_params char_b_params : Params) (num_matches : Z) (r : Rng)
    : result (Q * (list nat * list Q * list Q)) :=
  let* res :=
    run_simulation fuel char_a_params char_b_params num_matches true r in
  match res with
  | (win_rate, Some (ha, hb)) =>
      let* series := averages ha hb in Ok (win_rate, series)
  | (win_rate, None) => Ok (win_rate, ([], [], []))
  end.

(** ** Closed forms used in the statements

    What an action computes from the two tape cells it may read: the
    uniform draw [tape r (cursor r)] and the normal draw after it. *)

Definition hit_damage (c : Character) (r : Rng) : Z :=
  let z := tape r (S (cursor r)) in
  Z.max 0 (Float.int_of_float (Float.of_int (attack_power c) + z * 8)%Q).

Definition healed_health (c : Character) (r : Rng) : Z :=
  let z := tape r (S (cursor r)) in
  Z.min
    (health c +
       Float.int_of_float (Float.of_int (healing c) * (1.0 + z * 0.2))%Q)
    (max_health c).

Definition missed (r : Rng) : bool := Float.ltb (tape r (cursor r)) MISS.

(** The actions an iteration entered in state [s] performs, in order.
    [struck s] is B's health once A has had its turn to attack. *)

Definition ev (s : State) (x : side) (k : action) (h : Z) : event :=
  {| ev_tick := tick_count s; ev_side := x; ev_action := k; ev_health := h;
     ev_guard_a := health (a s); ev_guard_b := health (b s) |}.

Definition struck (s : State) : Z :=
  if attack_due (a s) then health (b s) - fst (attack (a s) (rng s))
  else health (b s).

Definition tick_events (s : State) : list event :=
  (if attack_due (a s) then [ev s SideA Attack (health (a s))] else []) ++
  (if heal_due (a s) then [ev s SideA Heal (health (a s))] else []) ++
  (if attack_due (b s) then [ev s SideB Attack (struck s)] else []) ++
  (if heal_due (b s) then [ev s SideB Heal (struck s)] else []).

(** What the four actions of an iteration leave alone. *)
Definition same_frame (s s' : State) : Prop :=
  current_time s' = current_time s /\ tick_count s' = tick_count s /\
  health_history_a s' = health_history_a s /\
  health_history_b s' = health_history_b s /\
  guard_health s' = guard_health s.

(** The attributes no method assigns after [__init__]. *)
Definition same_static (c c' : Character) : Prop :=
  name c' = name c /\ attack_power c' = attack_power c /\
  healing c' = healing c /\ max_health c' = max_health c /\
  attack_cooldown c' = attack_cooldown c /\
  healing_cooldown c' = healing_cooldown c.

(** Two readings of "acts only while alive": the iteration of the action
    was entered with both healths positive, and the actor's own health was
    positive at the moment it acted. *)
Definition entered_alive (e : event) : Prop :=
  0 < ev_guard_a e /\ 0 < ev_guard_b e.

Definition acted_alive (e : event) : Prop := 0 < ev_health e.

(** Number of samples a history holds at tick [k]. *)
Definition samples (h : history) (k : nat) : nat := length (dd_get h k).

(** A history never stores an empty list under a key. *)
Definition no_empty_key (h : history) : Prop :=
  forall k l, h !! k = Some l -> l <> [].

(** [n] equally spaced uniform draws of [0, 1), and how many of them
    make an action miss. *)
Definition grid (n : nat) : list Q :=
  map (fun k => Z.of_nat k # Pos.of_nat n) (seq 0 n).

Definition miss_count (n : nat) : nat :=
  length (List.filter (fun u => Float.ltb u MISS) (grid n)).

(** ** Concrete scenarios *)

(** A tape on which every draw is one half: no action misses. *)
Definition steady : Rng := script [] 0.5.

Definition one_shot : Params :=
  {| p_attack_power := 1000; p_health := 100; p_healing := 0;
     p_attack_cooldown := 0.1; p_healing_cooldown := 0.1 |}.

Definition weak_healer : Params :=
  {| p_attack_power := 1; p_health := 10; p_healing := 3;
     p_attack_cooldown := 0.1; p_healing_cooldown := 0.1 |}.

(** B of [weak_healer] just after the first blow of [one_shot]. *)
Definition fallen : Character := set_health (-994) (init "B" weak_healer).

(** One match of [one_shot] against [weak_healer] on the steady tape. *)
Definition first_blow : result Tally :=
  simulate 1 one_shot weak_healer 1 false steady.

Definition logs (res : result Tally) : list match_log :=
  match res with Ok t => matches t | _ => [] end.

(** The sides and kinds of a list of actions, in order. *)
Definition acts (l : list event) : list (side * action) :=
  map (fun e => (ev_side e, ev_action e)) l.

(** A mirror match of [one_shot]: neither side has any healing. *)
Definition mirror : State := start one_shot one_shot (fresh steady).

(** Who took a finished match, read off its final healths. *)
Definition a_won (m : match_log) : bool :=
  (ml_health_b m <? ml_health_a m) && (0 <? ml_health_a m).

Definition b_won (m : match_log) : bool :=
  (ml_health_a m <? ml_health_b m) && (0 <? ml_health_b m).

Definition count {A} (p : A -> bool) (l : list A) : nat :=
  length (List.filter p l).

(** Number of matches whose loop ran iteration [k]. *)
Definition reached (k : nat) (ms : list match_log) : nat :=
  count (fun m => (k <? ml_ticks m)%nat) ms.

(** The parameter values the specification calls invalid. *)
Definition invalid_params (p : Params) : Prop :=
  (p_attack_cooldown p <= 0)%Q \/ (p_healing_cooldown p <= 0)%Q \/
  p_attack_power p < 0 \/ p_health p < 0 \/ p_healing p < 0.

Definition invalid_call (pa pb : Params) (num_matches : Z) : Prop :=
  invalid_params pa \/ invalid_params pb \/ num_matches <= 0.

Definition raises {A} (m : result A) : Prop := exists e, m = Raise e.

(** Two parameter sets with out-of-range cooldowns, healing and attack. *)
Definition reckless : Params :=
  {| p_attack_power := 1000; p_health := 100; p_healing := -3;
     p_attack_cooldown := -1; p_healing_cooldown := 0 |}.

Definition feeble : Params :=
  {| p_attack_power := -5; p_health := 10; p_healing := 0;
     p_attack_cooldown := 0; p_healing_cooldown := -2 |}.

(** The value a call returned, if it returned. *)
Definition returned {A} (m : result A) : option A :=
  match m with Ok x => Some x | _ => None end.

(** The mean of the samples a history holds at tick [k]. *)
Definition average (h : history) (k : nat) : Q :=
  (Float.of_int (sum (dd_get h k)) / Float.of_int (Z.of_nat (samples h k)))%Q.

(** A tape on which only the seventh draw is a miss: in a run of
    [one_shot] against [weak_healer] the first match takes one iteration
    and the second, whose opening blow misses, takes two. *)
Definition uneven : Rng := script [0.5; 0.5; 0.5; 0.5; 0.5; 0.5; 0.01]%Q 0.5.

Definition uneven_tally : Tally :=
  let t1 := finish (tick true (start one_shot weak_healer (fresh uneven)))
              (fresh uneven) in
  finish (tick true (tick true (start one_shot weak_healer t1))) t1.

(** ** Further notions used in the statements *)

(** Tapes on which every action misses, and tapes on which none does (and
    every normal draw is positive). *)
Definition all_miss (r : Rng) : Prop := forall n, (tape r n < MISS)%Q.
Definition no_miss (r : Rng) : Prop := forall n, (MISS <= tape r n)%Q.

(** A state and a tally with the two health histories emptied. *)
Definition forget (s : State) : State :=
  {| rng := rng s; a := a s; b := b s; current_time := current_time s;
     tick_count := tick_count s;
     health_history_a := ∅; health_history_b := ∅;
     guard_health := guard_health s; trace := trace s |}.

Definition forget_tally (t : Tally) : Tally :=
  {| wins_a := wins_a t; wins_b := wins_b t; histories := (∅, ∅);
     generator := generator t; matches := matches t |}.

Definition map_result {A B} (f : A -> B) (m : result A) : result B :=
  match m with
  | Ok x => Ok (f x)
  | Raise e => Raise e
  | OutOfFuel => OutOfFuel
  end.

(** Every sample of a history lies in [(0, hi]]. *)
Definition within (hi : Z) (h : history) : Prop :=
  forall k v, v ∈ dd_get h k -> 0 < v <= hi.

(** Every sample a history holds at tick 0 is [v0]. *)
Definition opens_with (v0 : Z) (h : history) : Prop :=
  forall v, v ∈ dd_get h 0 -> v = v0.

(** A tape on which every draw is 0: every action misses. *)
Definition dud : Rng := script [] 0.

(** What keeps A striking at every iteration and B from recovering. *)
Definition relentless (s : State) : Prop :=
  attack_due (a s) = true /\ 1 <= attack_power (a s) /\
  (attack_cooldown (a s) <= TICK_LENGTH)%Q /\ healing (b s) <= 0 /\
  no_miss (rng s).

(** What a heal that does not miss adds before the cap: the truncated
    product of [healing] and the noise factor. *)
Definition healing_amount (c : Character) (r : Rng) : Z :=
  Float.int_of_float
    (Float.of_int (healing c) * (1.0 + tape r (S (cursor r)) * 0.2))%Q.

(** A tape whose normal draw makes the noise factor [1 + 0.2 * (-10) = -1]. *)
Definition backfire : Rng := script [0.5; -10]%Q 0.

(** ** The optimization agent ([OptimizationAgent.py])

    Of the agent only what does not go through the language-model service
    is modelled: the loop that collects the archetypes' parameters from
    the imbalance data, and the arithmetic on the changed value. *)

(** A parameter dict as the callers pass it: names to numbers. *)
Abbreviation pdict := (gmap string Q).

(** One entry of [imbalance_data_list]. *)
Record imbalance := {
  matchup : string;
  win_rate_a : Q;
  character_a : string;
  character_b : string;
  character_a_params : pdict;
  character_b_params : pdict
}.

(** [if name not in archetype_params: archetype_params[name] = params] *)
Definition note (name : string) (params : pdict) (m : gmap string pdict)
    : gmap string pdict :=
  match m !! name with
  | Some _ => m
  | None => <[name := params]> m
  end.

(** The first loop of [run_optimization_agent]. *)
Definition archetype_params (imbalance_data_list : list imbalance)
    : gmap string pdict :=
  foldl
    (fun m data =>
       note (character_b data) (character_b_params data)
         (note (character_a data) (character_a_params data) m))
    ∅ imbalance_data_list.

(** [archetype_params.get(name, {})] *)
Definition current_params (name : string)
    (imbalance_data_list : list imbalance) : pdict :=
  default ∅ (archetype_params imbalance_data_list !! name).

(** [amount] and [amount_percentage] as [apply_parameter_change] computes
    them from the value the service returned and the current one. *)
Definition change_amount (new_value current_value : Q) : Q * Q :=
  let amount := Qabs (new_value - current_value) in
  let amount_percentage :=
    if negb (Qeq_bool current_value 0)
    then (amount / current_value * 100)%Q
    else if Qeq_bool amount 0 then 0.0%Q else 100.0%Q in
  (amount, amount_percentage).

(** An entry names archetype [x] on one of its two sides. *)
Definition mentions (x : string) (data : imbalance) : Prop :=
  character_a data = x \/ character_b data = x.

(** ** The balancing script ([run.py])

    The service behind [run_optimization_agent] is an oracle: what it
    answers in a round may depend on the round, the imbalance data and the
    history it is shown.  Printing is left out. *)

Record ParameterChangeDecision := {
  character : string;
  parameter : string;
  direction : string;
  rationale : string
}.

Record ProposedFix := {
  healer : Params;
  attacker : Params;
  fix_rationale : string;
  amount : Q;
  amount_percentage : Q
}.

(** An entry of [history_buffer], its inner dict ["changes"] flattened. *)
Record history_entry := {
  iteration : nat;
  win_rate_before : Q;
  win_rate_after : Q;
  changed_character : string;
  changed_parameter : string;
  changed_direction : string;
  changed_amount : Q;
  changed_amount_percentage : Q
}.

(** The dict of an archetype's five parameters. *)
Definition to_dict (p : Params) : pdict :=
  <["attack_power" := inject_Z (p_attack_power p)]>
    (<["health" := inject_Z (p_health p)]>
       (<["healing" := inject_Z (p_healing p)]>
          (<["attack_cooldown" := p_attack_cooldown p]>
             (<["healing_cooldown" := p_healing_cooldown p]> ∅)))).

Definition INITIAL_HEALER_PARAMS : Params :=
  {| p_attack_power := 9; p_health := 70; p_healing := 30;
     p_attack_cooldown := 1.2; p_healing_cooldown := 0.5 |}.

Definition INITIAL_ATTACKER_PARAMS : Params :=
  {| p_attack_power := 28; p_health := 90; p_healing := 0;
     p_attack_cooldown := 0.8; p_healing_cooldown := 1.0 |}.

Definition max_rounds : nat := 50.

(** The locals of the script that the loop changes, and the generator. *)
Record Round := {
  round_number : nat;
  current_healer_params : Params;
  current_attacker_params : Params;
  history_buffer : list history_entry;
  dice : Rng
}.

(** A call [run_simulation(a, b)] of the script: 1000 matches, no
    tracking; the win rate and the generator it leaves behind. *)
Definition simulation (fuel : nat) (char_a_params char_b_params : Params)
    (r : Rng) : result (Q * Rng) :=
  let* t := simulate fuel char_a_params char_b_params 1000 false r in
  let* win_rate_a := win_rate (wins_a t) (wins_b t) in
  Ok (win_rate_a, generator t).

(** [40 <= win_rate <= 60] *)
Definition balanced (win_rate : Q) : bool :=
  Float.leb 40 win_rate && Float.leb win_rate 60.

(** The winner named before the loop: anything not above 50 goes to the
    attacker. *)
Definition initial_report (win_rate : Q) : string * Q :=
  if Float.ltb 50 win_rate then ("Healer", win_rate)
  else ("Attacker", (100 - win_rate)%Q).

(** The winner named at the top of each round. *)
Definition round_report (win_rate : Q) : string * Q :=
  if Float.ltb 50 win_rate then ("Healer", win_rate)
  else if Float.ltb win_rate 50 then ("Attacker", (100 - win_rate)%Q)
  else ("Tie", 50.0%Q).

(** The one-entry [imbalance_data_list] of a round. *)
Definition imbalance_data (win_rate : Q) (st : Round) : list imbalance :=
  [{| matchup := "Healer vs Attacker";
      win_rate_a := win_rate;
      character_a := "Healer";
      character_b := "Attacker";
      character_a_params := to_dict (current_healer_params st);
      character_b_params := to_dict (current_attacker_params st) |}].

Section Balancing.

Variable agent :
  nat -> list imbalance -> list history_entry ->
  option (ParameterChangeDecision * ProposedFix).
Variable fuel : nat.

Definition with_dice (r : Rng) (st : Round) : Round :=
  {| round_number := round_number st;
     current_healer_params := current_healer_params st;
     current_attacker_params := current_attacker_params st;
     history_buffer := history_buffer st;
     dice := r |}.

(** The body of [while round_number < max_rounds]; [continue] is the rest
    of the loop. *)
Definition round_body (continue : Round -> result Round) (st : Round)
    : result Round :=
  let* sim :=
    simulation fuel (current_healer_params st) (current_attacker_params st)
      (dice st) in
  let win_rate := fst sim in
  let imbalance_data_list := imbalance_data win_rate st in
  if balanced win_rate then Ok (with_dice (snd sim) st)
  else
    let win_rate_before := win_rate in
    match agent (round_number st) imbalance_data_list (history_buffer st) with
    | Some (decision, fixes) =>
        let* sim' :=
          simulation fuel (healer fixes) (attacker fixes) (snd sim) in
        let history_entry :=
          {| iteration := round_number st + 1;
             win_rate_before := win_rate_before;
             win_rate_after := fst sim';
             changed_character := character decision;
             changed_parameter := parameter decision;
             changed_direction := direction decision;
             changed_amount := amount fixes;
             changed_amount_percentage := amount_percentage fixes |} in
        continue
          {| round_number := round_number st + 1;
             current_healer_params := healer fixes;
             current_attacker_params := attacker fixes;
             history_buffer := history_buffer st ++ [history_entry];
             dice := snd sim' |}
    | None => Ok (with_dice (snd sim) st)
    end.

Fixpoint rounds (k : nat) (st : Round) : result Round :=
  match k with
  | O => Ok st
  | S k' =>
      if (round_number st <? max_rounds)%nat
      then round_body (rounds k') st
      else Ok st
  end.

(** The loop: it can take no more than the rounds that are left. *)
Definition balance (st : Round) : result Round :=
  rounds (max_rounds - round_number st) st.

End Balancing.

(** What every entry of the history records: a win rate outside the
    balanced band before the change, and two win rates between 0 and 100. *)
Definition sound_entry (e : history_entry) : Prop :=
  balanced (win_rate_before e) = false /\
  (0 <= win_rate_before e <= 100)%Q /\
  (0 <= win_rate_after e <= 100)%Q.

(** An oracle that never proposes a fix, and one that always proposes the
    starting parameters again. *)
Definition silent_agent (n : nat) (l : list imbalance)
    (h : list history_entry)
    : option (ParameterChangeDecision * ProposedFix) := None.

Definition stubborn_agent (n : nat) (l : list imbalance)
    (h : list history_entry)
    : option (ParameterChangeDecision * ProposedFix) :=
  Some ({| character := "Healer"; parameter := "healing";
           direction := "decrease"; rationale := "" |},
        {| healer := one_shot; attacker := weak_healer; fix_rationale := "";
           amount := 0; amount_percentage := 0 |}).

Definition opening (r : Rng) : Round :=
  {| round_number := 0;
     current_healer_params := one_shot;
     current_attacker_params := weak_healer;
     history_buffer := [];
     dice := r |}.

(** An oracle that answers in the first round only. *)
Definition one_answer_agent (n : nat) (l : list imbalance)
    (h : list history_entry)
    : option (ParameterChangeDecision * ProposedFix) :=
  if (n =? 0)%nat then stubborn_agent n l h else None.

(** The number of iterations of the longest match. *)
Definition longest (ms : list match_log) : nat :=
  max_list (map ml_ticks ms).

(** * Properties *)

(** ** Floats *)

Lemma ltb_lt x y : Float.ltb x y = true <-> (x < y)%Q.
Proof.
  unfold Float.ltb.
  rewrite negb_true_iff, <- not_true_iff_false, Qle_bool_iff.
  split; [apply Qnot_le_lt | apply Qlt_not_le].
Qed.

Lemma leb_le x y : Float.leb x y = true <-> (x <= y)%Q.
Proof. apply Qle_bool_iff. Qed.

Lemma int_of_float_of_int n : Float.int_of_float (Float.of_int n) = n.
Proof. unfold Float.int_of_float, Float.of_int; simpl. apply Z.quot_1_r. Qed.

(** ** Actions of a character *)

Section Actions.

Variable c : Character.
Variable r : Rng.

Lemma attack_miss : missed r = true -> attack c r = (0, next r).
Proof. unfold attack, random, missed; intros ->; reflexivity. Qed.

Lemma attack_hit :
  missed r = false -> attack c r = (hit_damage c r, next (next r)).
Proof. unfold attack, random, missed; intros ->; reflexivity. Qed.

Lemma attack_nonneg : 0 <= fst (attack c r).
Proof.
  destruct (missed r) eqn:E.
  - rewrite attack_miss by exact E. simpl; lia.
  - rewrite attack_hit by exact E. unfold hit_damage; simpl; lia.
Qed.

Lemma heal_miss :
  missed r = true -> heal c r = (Some (health c), c, next r).
Proof. unfold heal, random, missed; intros ->; reflexivity. Qed.

Lemma heal_hit :
  missed r = false ->
  heal c r = (None, set_health (healed_health c r) c, next (next r)).
Proof. unfold heal, random, missed; intros ->; reflexivity. Qed.

(** Whatever the draw, [heal] touches no field but [health]. *)
Lemma heal_frame :
  let c' := snd (fst (heal c r)) in
  name c' = name c /\ attack_power c' = attack_power c /\
  healing c' = healing c /\ max_health c' = max_health c /\
  attack_cooldown c' = attack_cooldown c /\
  healing_cooldown c' = healing_cooldown c /\
  time_until_attack c' = time_until_attack c /\
  time_until_heal c' = time_until_heal c.
Proof.
  destruct (missed r) eqn:E;
    [rewrite heal_miss by exact E | rewrite heal_hit by exact E];
    simpl; repeat split; reflexivity.
Qed.

Lemma heal_health :
  health (snd (fst (heal c r))) =
  if missed r then health c else healed_health c r.
Proof.
  destruct (missed r) eqn:E;
    [rewrite heal_miss by exact E | rewrite heal_hit by exact E];
    reflexivity.
Qed.

Lemma healed_health_le_max : healed_health c r <= max_health c.
Proof. unfold healed_health; lia. Qed.

End Actions.

(** ** One iteration of the loop *)

Lemma a_attack_eq s :
  a_attack s =
  {| rng := snd (attack (a s) (rng s));
     a := set_time_until_attack (attack_cooldown (a s)) (a s);
     b := set_health (health (b s) - fst (attack (a s) (rng s))) (b s);
     current_time := current_time s; tick_count := tick_count s;
     health_history_a := health_history_a s;
     health_history_b := health_history_b s;
     guard_health := guard_health s;
     trace := trace (log SideA Attack s) |}.
Proof. unfold a_attack; simpl. destruct (attack (a s) (rng s)); reflexivity. Qed.

Lemma b_attack_eq s :
  b_attack s =
  {| rng := snd (attack (b s) (rng s));
     a := set_health (health (a s) - fst (attack (b s) (rng s))) (a s);
     b := set_time_until_attack (attack_cooldown (b s)) (b s);
     current_time := current_time s; tick_count := tick_count s;
     health_history_a := health_history_a s;
     health_history_b := health_history_b s;
     guard_health := guard_health s;
     trace := trace (log SideB Attack s) |}.
Proof. unfold b_attack; simpl. destruct (attack (b s) (rng s)); reflexivity. Qed.

Lemma a_heal_eq s :
  a_heal s =
  {| rng := snd (heal (a s) (rng s));
     a := set_time_until_heal (healing_cooldown (snd (fst (heal (a s) (rng s)))))
            (snd (fst (heal (a s) (rng s))));
     b := b s;
     current_time := current_time s; tick_count := tick_count s;
     health_history_a := health_history_a s;
     health_history_b := health_history_b s;
     guard_health := guard_health s;
     trace := trace (log SideA Heal s) |}.
Proof.
  unfold a_heal; simpl. destruct (heal (a s) (rng s)) as [[o c] r]; reflexivity.
Qed.

Lemma b_heal_eq s :
  b_heal s =
  {| rng := snd (heal (b s) (rng s));
     a := a s;
     b := set_time_until_heal (healing_cooldown (snd (fst (heal (b s) (rng s)))))
            (snd (fst (heal (b s) (rng s))));
     current_time := current_time s; tick_count := tick_count s;
     health_history_a := health_history_a s;
     health_history_b := health_history_b s;
     guard_health := guard_health s;
     trace := trace (log SideB Heal s) |}.
Proof.
  unfold b_heal; simpl. destruct (heal (b s) (rng s)) as [[o c] r]; reflexivity.
Qed.

(** Projections of the character [heal] returns. *)
Section HealFrame.
Variables (c : Character) (r : Rng).
Let c' := snd (fst (heal c r)).

Lemma heal_name : name c' = name c.
Proof. apply (heal_frame c r). Qed.
Lemma heal_attack_power : attack_power c' = attack_power c.
Proof. apply (heal_frame c r). Qed.
Lemma heal_healing : healing c' = healing c.
Proof. apply (heal_frame c r). Qed.
Lemma heal_max_health : max_health c' = max_health c.
Proof. apply (heal_frame c r). Qed.
Lemma heal_attack_cooldown : attack_cooldown c' = attack_cooldown c.
Proof. apply (heal_frame c r). Qed.
Lemma heal_healing_cooldown : healing_cooldown c' = healing_cooldown c.
Proof. apply (heal_frame c r). Qed.
Lemma heal_time_until_attack : time_until_attack c' = time_until_attack c.
Proof. apply (heal_frame c r). Qed.
Lemma heal_time_until_heal : time_until_heal c' = time_until_heal c.
Proof. apply (heal_frame c r). Qed.
End HealFrame.

Ltac heal_rw :=
  rewrite ?heal_name, ?heal_attack_power, ?heal_healing, ?heal_max_health,
    ?heal_attack_cooldown, ?heal_healing_cooldown, ?heal_time_until_attack,
    ?heal_time_until_heal.

Ltac proj :=
  cbn [rng a b current_time tick_count health_history_a health_history_b
       guard_health trace name attack_power healing max_health health
       attack_cooldown healing_cooldown time_until_attack time_until_heal
       set_health set_time_until_attack set_time_until_heal set_rng set_a
       set_b enter log logged record_health advance cool who fst snd
       ev_tick ev_side ev_action ev_health ev_guard_a ev_guard_b] in *.

(** The stages of the loop body, each described on an arbitrary state. *)

Lemma stage_record c s :
  let s' := when c record_health s in
  a s' = a s /\ b s' = b s /\ rng s' = rng s /\ trace s' = trace s /\
  tick_count s' = tick_count s /\ guard_health s' = guard_health s /\
  current_time s' = current_time s /\
  health_history_a s' =
    (if c then dd_append (tick_count s) (health (a s)) (health_history_a s)
     else health_history_a s) /\
  health_history_b s' =
    (if c then dd_append (tick_count s) (health (b s)) (health_history_b s)
     else health_history_b s).
Proof. destruct c; cbn; repeat split; reflexivity. Qed.

Lemma stage_a_attack s :
  let c := attack_due (a s) in
  let s' := when c a_attack s in
  a s' = (if c then set_time_until_attack (attack_cooldown (a s)) (a s)
          else a s) /\
  b s' = (if c then set_health (health (b s) - fst (attack (a s) (rng s))) (b s)
          else b s) /\
  trace s' = trace s ++ (if c then [logged s SideA Attack] else []) /\
  (heal_due (a s') = heal_due (a s) /\ attack_due (b s') = attack_due (b s) /\
   heal_due (b s') = heal_due (b s)) /\
  same_frame s s'.
Proof.
  cbv zeta. unfold when. destruct (attack_due (a s)).
  - rewrite a_attack_eq. repeat split; reflexivity.
  - rewrite app_nil_r. repeat split; reflexivity.
Qed.

Lemma stage_a_heal s :
  let c := heal_due (a s) in
  let s' := when c a_heal s in
  a s' = (if c then set_time_until_heal (healing_cooldown (a s))
                      (snd (fst (heal (a s) (rng s))))
          else a s) /\
  b s' = b s /\
  trace s' = trace s ++ (if c then [logged s SideA Heal] else []) /\
  same_frame s s'.
Proof.
  cbv zeta. unfold when. destruct (heal_due (a s)).
  - rewrite a_heal_eq. heal_rw.
    repeat split; reflexivity.
  - rewrite app_nil_r. repeat split; reflexivity.
Qed.

Lemma stage_b_attack s :
  let c := attack_due (b s) in
  let s' := when c b_attack s in
  b s' = (if c then set_time_until_attack (attack_cooldown (b s)) (b s)
          else b s) /\
  a s' = (if c then set_health (health (a s) - fst (attack (b s) (rng s))) (a s)
          else a s) /\
  trace s' = trace s ++ (if c then [logged s SideB Attack] else []) /\
  heal_due (b s') = heal_due (b s) /\
  same_frame s s'.
Proof.
  cbv zeta. unfold when. destruct (attack_due (b s)).
  - rewrite b_attack_eq. repeat split; reflexivity.
  - rewrite app_nil_r. repeat split; reflexivity.
Qed.

Lemma stage_b_heal s :
  let c := heal_due (b s) in
  let s' := when c b_heal s in
  b s' = (if c then set_time_until_heal (healing_cooldown (b s))
                      (snd (fst (heal (b s) (rng s))))
          else b s) /\
  a s' = a s /\
  trace s' = trace s ++ (if c then [logged s SideB Heal] else []) /\
  same_frame s s'.
Proof.
  cbv zeta. unfold when. destruct (heal_due (b s)).
  - rewrite b_heal_eq. heal_rw.
    repeat split; reflexivity.
  - rewrite app_nil_r. repeat split; reflexivity.
Qed.

(** Name the five intermediate states of [tick track s], describe each from
    the one before it, and express the four guards on [s] itself. *)
Ltac stages track s :=
  unfold tick; cbv zeta;
  pose proof (stage_record track (enter s)) as H1; cbv zeta in H1;
  set (s1 := when track record_health (enter s)) in *; clearbody s1;
  pose proof (stage_a_attack s1) as H2; cbv zeta in H2;
  set (s2 := when (attack_due (a s1)) a_attack s1) in *; clearbody s2;
  pose proof (stage_a_heal s2) as H3; cbv zeta in H3;
  set (s3 := when (heal_due (a s2)) a_heal s2) in *; clearbody s3;
  pose proof (stage_b_attack s3) as H4; cbv zeta in H4;
  set (s4 := when (attack_due (b s3)) b_attack s3) in *; clearbody s4;
  pose proof (stage_b_heal s4) as H5; cbv zeta in H5;
  set (s5 := when (heal_due (b s4)) b_heal s4) in *; clearbody s5;
  proj;
  destruct H1 as (Ha1 & Hb1 & Hr1 & Ht1 & Hn1 & Hg1 & Hc1 & Hha1 & Hhb1);
  destruct H2 as
    (Ha2 & Hb2 & Ht2 & (Hd2 & Hd2' & Hd2'') & Hc2 & Hn2 & Hha2 & Hhb2 & Hg2);
  destruct H3 as (Ha3 & Hb3 & Ht3 & Hc3 & Hn3 & Hha3 & Hhb3 & Hg3);
  destruct H4 as (Hb4 & Ha4 & Ht4 & Hd4 & Hc4 & Hn4 & Hha4 & Hhb4 & Hg4);
  destruct H5 as (Hb5 & Ha5 & Ht5 & Hc5 & Hn5 & Hha5 & Hhb5 & Hg5);
  rewrite Hd4, Hb3, Hd2'' in Hb5, Ht5;
  rewrite Hb3, Hd2' in Hb4, Ha4, Ht4;
  rewrite Hd2 in Ha3, Ht3;
  rewrite Ha1 in Ha2, Hb2, Ht2, Ha3, Ht3;
  rewrite Hb1 in Hb2, Hb4, Ha4, Ht4, Hb5, Ht5;
  clear Hd4 Hd2 Hd2' Hd2''.

Lemma tick_trace track s : trace (tick track s) = trace s ++ tick_events s.
Proof.
  stages track s.
  unfold tick_events, ev, struck.
  rewrite Ht5, Ht4, Ht3, Ht2, Ht1; unfold logged.
  rewrite Hn4, Hn3, Hn2, Hn1, Hg4, Hg3, Hg2, Hg1; proj.
  rewrite Hb4, Hb3, Ha2, Hb2, Hr1, ?Ha1, ?Hb1, <- !app_assoc.
  destruct (attack_due (a s)), (heal_due (a s)),
    (attack_due (b s)), (heal_due (b s)); proj; reflexivity.
Qed.

Lemma tick_counters track s :
  tick_count (tick track s) = S (tick_count s) /\
  current_time (tick track s) = (current_time s + TICK_LENGTH)%Q.
Proof.
  stages track s. rewrite Hn5, Hn4, Hn3, Hn2, Hn1, Hc5, Hc4, Hc3, Hc2, Hc1.
  split; reflexivity.
Qed.

Lemma tick_histories track s :
  health_history_a (tick track s) =
    (if track
     then dd_append (tick_count s) (health (a s)) (health_history_a s)
     else health_history_a s) /\
  health_history_b (tick track s) =
    (if track
     then dd_append (tick_count s) (health (b s)) (health_history_b s)
     else health_history_b s).
Proof.
  stages track s.
  rewrite Hha5, Hha4, Hha3, Hha2, Hha1, Hhb5, Hhb4, Hhb3, Hhb2, Hhb1.
  split; reflexivity.
Qed.

Lemma tick_timers_a track s :
  time_until_attack (a (tick track s)) =
    ((if attack_due (a s) then attack_cooldown (a s)
      else time_until_attack (a s)) - TICK_LENGTH)%Q /\
  time_until_heal (a (tick track s)) =
    ((if heal_due (a s) then healing_cooldown (a s)
      else time_until_heal (a s)) - TICK_LENGTH)%Q.
Proof.
  stages track s. rewrite ?Ha5, ?Ha4, ?Ha3, ?Ha2.
  destruct (attack_due (a s)), (heal_due (a s)), (attack_due (b s));
    proj; heal_rw; proj; split; reflexivity.
Qed.

Lemma tick_timers_b track s :
  time_until_attack (b (tick track s)) =
    ((if attack_due (b s) then attack_cooldown (b s)
      else time_until_attack (b s)) - TICK_LENGTH)%Q /\
  time_until_heal (b (tick track s)) =
    ((if heal_due (b s) then healing_cooldown (b s)
      else time_until_heal (b s)) - TICK_LENGTH)%Q.
Proof.
  stages track s. rewrite ?Hb5, ?Hb4, ?Hb3, ?Hb2.
  destruct (attack_due (a s)), (heal_due (b s)), (attack_due (b s));
    proj; heal_rw; proj; split; reflexivity.
Qed.

Lemma tick_static track s :
  same_static (a s) (a (tick track s)) /\
  same_static (b s) (b (tick track s)).
Proof.
  stages track s. unfold same_static.
  rewrite ?Ha5, ?Ha4, ?Ha3, ?Ha2, ?Hb5, ?Hb4, ?Hb3, ?Hb2.
  destruct (attack_due (a s)), (heal_due (a s)),
    (attack_due (b s)), (heal_due (b s));
    proj; heal_rw; proj; heal_rw; proj; repeat split; reflexivity.
Qed.

(** Health never rises above [max_health] during an iteration. *)
Lemma tick_health_le_max track s :
  (health (a s) <= max_health (a s) ->
   health (a (tick track s)) <= max_health (a s)) /\
  (health (b s) <= max_health (b s) ->
   health (b (tick track s)) <= max_health (b s)).
Proof.
  stages track s.
  rewrite ?Ha5, ?Ha4, ?Ha3, ?Ha2, ?Hb5, ?Hb4, ?Hb3, ?Hb2.
  destruct (attack_due (a s)), (heal_due (a s)),
    (attack_due (b s)), (heal_due (b s));
    proj; rewrite ?heal_health; proj;
    repeat match goal with
      | |- context [healed_health ?c ?r] =>
          pose proof (healed_health_le_max c r); proj;
          generalize dependent (healed_health c r); intros
      | |- context [fst (attack ?c ?r)] =>
          pose proof (attack_nonneg c r);
          generalize dependent (fst (attack c r)); intros
      end;
    split; intros; repeat destruct (missed _); lia.
Qed.

(** ** The loop of one fight *)

Lemma alive_true s :
  alive s = true <-> 0 < health (a s) /\ 0 < health (b s).
Proof. unfold alive. rewrite andb_true_iff, !Z.ltb_lt. reflexivity. Qed.

Lemma alive_false s :
  alive s = false <-> health (a s) <= 0 \/ health (b s) <= 0.
Proof. unfold alive. rewrite andb_false_iff, !Z.ltb_ge. reflexivity. Qed.

Lemma fight_dead fuel track s : alive s = false -> fight fuel track s = Some s.
Proof. intros H. destruct fuel; simpl; rewrite H; reflexivity. Qed.

Lemma fight_step fuel track s :
  alive s = true ->
  fight (S fuel) track s = fight fuel track (tick track s).
Proof. intros H. simpl. rewrite H. reflexivity. Qed.

(** A property kept by every iteration entered alive holds when the loop
    exits, and the exit state fails the guard. *)
Lemma fight_invariant (I : State -> Prop) track :
  (forall s, alive s = true -> I s -> I (tick track s)) ->
  forall fuel s s',
    I s -> fight fuel track s = Some s' -> I s' /\ alive s' = false.
Proof.
  intros Hstep fuel. induction fuel as [|fuel IH]; intros s s' HI Hf.
  - simpl in Hf. destruct (alive s) eqn:E; [discriminate|].
    injection Hf as <-. split; assumption.
  - destruct (alive s) eqn:E.
    + rewrite fight_step in Hf by exact E.
      apply (IH (tick track s)); [apply Hstep; assumption | exact Hf].
    + rewrite fight_dead in Hf by exact E. injection Hf as <-.
      split; assumption.
Qed.

(** More fuel never changes a result already reached. *)
Lemma fight_more_fuel track fuel fuel' s s' :
  (fuel <= fuel')%nat ->
  fight fuel track s = Some s' -> fight fuel' track s = Some s'.
Proof.
  revert fuel' s. induction fuel as [|fuel IH]; intros fuel' s Hle Hf.
  - simpl in Hf. destruct (alive s) eqn:E; [discriminate|].
    rewrite fight_dead by exact E. exact Hf.
  - destruct fuel' as [|fuel']; [lia|].
    destruct (alive s) eqn:E.
    + rewrite fight_step in * by exact E. apply IH; [lia | exact Hf].
    + rewrite fight_dead in * by exact E. exact Hf.
Qed.

Lemma tick_events_alive s :
  alive s = true ->
  Forall (fun e => entered_alive e /\ (ev_side e = SideA -> acted_alive e))
    (tick_events s).
Proof.
  rewrite alive_true. intros [Ha Hb]. unfold tick_events.
  repeat (apply Forall_app; split);
    match goal with |- Forall _ (if ?c then _ else _) => destruct c end;
    try apply Forall_nil_2; apply Forall_cons_2; try apply Forall_nil_2;
    (split; [split; assumption | simpl; intros; try discriminate; assumption]).
Qed.

Lemma fight_trace fuel track s s' :
  fight fuel track s = Some s' ->
  exists new,
    trace s' = trace s ++ new /\
    Forall (fun e => entered_alive e /\ (ev_side e = SideA -> acted_alive e))
      new.
Proof.
  intros Hf.
  apply (fight_invariant
           (fun x => exists new, trace x = trace s ++ new /\
              Forall (fun e => entered_alive e /\
                               (ev_side e = SideA -> acted_alive e)) new)
           track) in Hf.
  - apply Hf.
  - intros x Hx (new & Hnew & Hall). exists (new ++ tick_events x). split.
    + rewrite tick_trace, Hnew, app_assoc. reflexivity.
    + apply Forall_app. split; [exact Hall | apply tick_events_alive, Hx].
  - exists []. split; [rewrite app_nil_r; reflexivity | apply Forall_nil_2].
Qed.

(** Throughout a fight no health exceeds its [max_health], so every call
    of [heal] in the loop starts from a health within the cap. *)
Lemma fight_health_le_max fuel track s s' :
  fight fuel track s = Some s' ->
  health (a s) <= max_health (a s) -> health (b s) <= max_health (b s) ->
  health (a s') <= max_health (a s') /\ health (b s') <= max_health (b s').
Proof.
  intros Hf Ha Hb.
  apply (fight_invariant
           (fun x => health (a x) <= max_health (a x) /\
                     health (b x) <= max_health (b x)) track) in Hf.
  - apply Hf.
  - intros x _ [Hxa Hxb].
    destruct (tick_static track x)
      as [(_ & _ & _ & Ema & _) (_ & _ & _ & Emb & _)].
    destruct (tick_health_le_max track x) as [Ka Kb].
    rewrite Ema, Emb. split; [apply Ka, Hxa | apply Kb, Hxb].
  - split; assumption.
Qed.

(** ** Truncation and the miss threshold *)

Lemma int_of_float_nonneg x :
  (0 <= x)%Q ->
  0 <= Float.int_of_float x /\
  (inject_Z (Float.int_of_float x) <= x < inject_Z (Float.int_of_float x + 1))%Q.
Proof.
  destruct x as [n d]. unfold Qle, Qlt, Float.int_of_float; simpl.
  intros Hn. rewrite Z.mul_1_r in Hn.
  pose proof (Z.quot_rem' n (Z.pos d)) as E.
  pose proof (Z.rem_bound_pos n (Z.pos d) Hn ltac:(lia)) as B.
  pose proof (Z.quot_pos n (Z.pos d) Hn ltac:(lia)).
  repeat split; nia.
Qed.

Lemma int_of_float_nonpos x :
  (x <= 0)%Q ->
  Float.int_of_float x <= 0 /\
  (inject_Z (Float.int_of_float x - 1) < x <= inject_Z (Float.int_of_float x))%Q.
Proof.
  destruct x as [n d]. unfold Qle, Qlt, Float.int_of_float; simpl.
  intros Hn. rewrite Z.mul_1_r in Hn.
  pose proof (Z.quot_rem' n (Z.pos d)) as E.
  pose proof (Z.rem_bound_neg_pos n (Z.pos d)) as B.
  pose proof (Z.rem_bound_pos_neg n (Z.pos d) ltac:(lia) Hn) as B'.
  assert (n `quot` Z.pos d <= 0) by nia.
  repeat split; nia.
Qed.

Lemma int_of_float_sum ap k :
  Float.int_of_float (Float.of_int ap + inject_Z k * 8)%Q = ap + k * 8.
Proof.
  unfold Float.int_of_float, Float.of_int. simpl.
  rewrite Z.quot_1_r. lia.
Qed.

Lemma missed_iff r : missed r = true <-> (tape r (cursor r) < 0.05)%Q.
Proof. apply ltb_lt. Qed.

Lemma filter_below m n k0 :
  length (List.filter (fun k => (k <? m)%nat) (seq k0 n)) =
  Nat.min (m - k0) n.
Proof.
  revert k0. induction n as [|n IH]; intros k0; simpl; [lia|].
  destruct (k0 <? m)%nat eqn:E; simpl; rewrite IH.
  - apply Nat.ltb_lt in E. lia.
  - apply Nat.ltb_ge in E. lia.
Qed.

Lemma miss_count_20 m : miss_count (20 * m) = m.
Proof.
  unfold miss_count, grid.
  destruct m as [|m]; [reflexivity|].
  set (n := (20 * S m)%nat).
  assert (E : forall l,
    List.filter (fun u => Float.ltb u MISS)
      (map (fun k => Z.of_nat k # Pos.of_nat n) l) =
    map (fun k => Z.of_nat k # Pos.of_nat n)
      (List.filter (fun k => (k <? S m)%nat) l)).
  { induction l as [|k l IH]; [reflexivity|]. simpl. rewrite IH.
    assert (Float.ltb (Z.of_nat k # Pos.of_nat n) MISS = (k <? S m)%nat) as ->.
    { apply eq_true_iff_eq. rewrite ltb_lt, Nat.ltb_lt.
      unfold Qlt, MISS; simpl Qnum; simpl Qden.
      assert (Z.pos (Pos.of_nat n) = Z.of_nat n) as ->
        by (subst n; lia).
      subst n. lia. }
    destruct (k <? S m)%nat; reflexivity. }
  rewrite E, length_map, filter_below. subst n. lia.
Qed.

(** ** Claims about the two actions *)

(** C6. [attack] returns 0 when the uniform draw is below 0.05 (on [20 * m]
    equally spaced draws exactly [m] miss); otherwise it returns the normal
    draw around [attack_power] with deviation 8, truncated toward zero and
    floored at 0, with no upper cap.  It assigns no health: in the loop it
    is the caller that subtracts the damage from the opponent. *)
Theorem attack_damage_model (c : Character) (r : Rng) :
  let g := (Float.of_int (attack_power c) + tape r (S (cursor r)) * 8)%Q in
  attack c r =
    (if missed r then (0, next r) else (hit_damage c r, next (next r))) /\
  (missed r = true <-> (tape r (cursor r) < 0.05)%Q) /\
  (forall m, miss_count (20 * m) = m) /\
  hit_damage c r = Z.max 0 (Float.int_of_float g) /\
  ((0 <= g)%Q ->
   (inject_Z (Float.int_of_float g) <= g < inject_Z (Float.int_of_float g + 1))%Q) /\
  ((g <= 0)%Q -> hit_damage c r = 0) /\
  0 <= fst (attack c r) /\
  (forall cap, exists r', cap < fst (attack c r')) /\
  (forall s,
     health (a (a_attack s)) = health (a s) /\
     health (b (a_attack s)) = health (b s) - fst (attack (a s) (rng s))) /\
  (forall s,
     health (b (b_attack s)) = health (b s) /\
     health (a (b_attack s)) = health (a s) - fst (attack (b s) (rng s))).
Proof.
  intros g. repeat apply conj.
  - destruct (missed r) eqn:E; [apply attack_miss | apply attack_hit]; exact E.
  - apply missed_iff.
  - apply missed_iff.
  - apply miss_count_20.
  - reflexivity.
  - intros Hg. apply int_of_float_nonneg, Hg.
  - intros Hg. unfold hit_damage. fold g.
    pose proof (int_of_float_nonpos g Hg). lia.
  - apply attack_nonneg.
  - intros cap.
    set (k := Z.max 0 (cap - attack_power c) + 1).
    exists (script [0.5%Q; inject_Z k] 0%Q).
    rewrite attack_hit by reflexivity.
    unfold hit_damage; simpl. rewrite int_of_float_sum. lia.
  - intros s. rewrite a_attack_eq. split; reflexivity.
  - intros s. rewrite b_attack_eq. split; reflexivity.
Qed.

Lemma attack_damage_model_witness :
  (0 <= Float.of_int 1000 + 0.5 * 8)%Q /\
  attack (init "A" one_shot) steady = (1004, next (next steady)) /\
  (inject_Z 1004 <= Float.of_int 1000 + 0.5 * 8 < inject_Z 1005)%Q.
Proof.
  assert (H : (0 <= Float.of_int 1000 + 0.5 * 8)%Q) by (vm_compute; discriminate).
  destruct (attack_damage_model (init "A" one_shot) steady)
    as (E & _ & _ & _ & T & _).
  split; [exact H|]. split; [exact E | exact (T H)].
Defined.

(** C7. [heal] on a miss (uniform draw below 0.05) leaves the character as
    it is and returns the health it had; otherwise it draws the factor
    [1.0 + z * 0.2], truncates [healing * factor] toward zero, adds it to
    the health and stores the minimum of that sum and [max_health]. *)
Theorem heal_model (c : Character) (r : Rng) :
  let factor := (1.0 + tape r (S (cursor r)) * 0.2)%Q in
  let healing_amount :=
    Float.int_of_float (Float.of_int (healing c) * factor)%Q in
  heal c r =
    (if missed r then (Some (health c), c, next r)
     else (None,
           set_health (Z.min (health c + healing_amount) (max_health c)) c,
           next (next r))) /\
  (missed r = true <-> (tape r (cursor r) < 0.05)%Q) /\
  (forall m, miss_count (20 * m) = m) /\
  ((0 <= Float.of_int (healing c) * factor)%Q ->
   0 <= healing_amount /\
   (inject_Z healing_amount <= Float.of_int (healing c) * factor
      < inject_Z (healing_amount + 1))%Q) /\
  ((Float.of_int (healing c) * factor <= 0)%Q ->
   healing_amount <= 0 /\
   (inject_Z (healing_amount - 1) < Float.of_int (healing c) * factor
      <= inject_Z healing_amount)%Q).
Proof.
  intros factor healing_amount. repeat apply conj.
  - destruct (missed r) eqn:E; [apply heal_miss | apply heal_hit]; exact E.
  - apply missed_iff.
  - apply missed_iff.
  - apply miss_count_20.
  - intros H. apply int_of_float_nonneg, H.
  - intros H. apply int_of_float_nonpos, H.
Qed.

Lemma heal_model_witness :
  (0 <= Float.of_int 3 * (1.0 + 0.5 * 0.2))%Q /\
  heal fallen steady = (None, set_health (-991) fallen, next (next steady)) /\
  (inject_Z 3 <= Float.of_int 3 * (1.0 + 0.5 * 0.2) < inject_Z 4)%Q.
Proof.
  assert (H : (0 <= Float.of_int 3 * (1.0 + 0.5 * 0.2))%Q)
    by (vm_compute; discriminate).
  destruct (heal_model fallen steady) as (E & _ & _ & T & _).
  split; [exact H|]. split; [exact E | exact (proj2 (T H))].
Defined.

(** C5, as stated, fails: a heal can leave a negative health.  B of
    [weak_healer], struck down to -994 by the first blow of [one_shot],
    heals in that same iteration and ends the fight at -991. *)
Lemma heal_not_floored_at_zero :
  (let c' := snd (fst (heal fallen steady)) in
   ~ (0 <= health c' <= max_health c')) /\
  map (fun m => (ml_health_b m,
                 map (fun e => (ev_side e, ev_action e, ev_health e))
                   (ml_events m)))
    (logs first_blow) =
  [(-991, [(SideA, Attack, 100); (SideB, Attack, -994); (SideB, Heal, -994)])].
Proof.
  split; [|vm_compute; reflexivity].
  vm_compute. intros [H _]. apply H. reflexivity.
Qed.

(** C5, amended. [heal] clamps from above only: a heal that does not miss
    stores [min (health + amount) max_health], a miss stores nothing, so a
    health that was at most [max_health] before the call is at most
    [max_health] after it; [max_health] itself is never assigned. *)
Theorem heal_capped_at_max (c : Character) (r : Rng) :
  health c <= max_health c ->
  let c' := snd (fst (heal c r)) in
  health c' <= max_health c' /\
  max_health c' = max_health c /\
  health c' = (if missed r then health c else healed_health c r).
Proof.
  intros Hle c'. subst c'. rewrite heal_max_health, heal_health.
  pose proof (healed_health_le_max c r).
  destruct (missed r); repeat split; lia.
Qed.

Lemma heal_capped_at_max_witness :
  health fallen <= max_health fallen /\
  health (snd (fst (heal fallen steady))) <= 10.
Proof.
  assert (H : health fallen <= max_health fallen) by (vm_compute; discriminate).
  split; [exact H|].
  exact (proj1 (heal_capped_at_max fallen steady H)).
Defined.

(** ** Claims about the schedule of one iteration *)

(** C4, as stated, fails: in the one iteration of [first_blow] B attacks and
    heals at health -994, after A's blow has brought it below zero. *)
Lemma struck_down_still_acts :
  ~ Forall acted_alive (concat (map ml_events (logs first_blow))).
Proof.
  vm_compute. intros H.
  apply Forall_cons_1 in H as [_ H]. apply Forall_cons_1 in H as [H _].
  discriminate H.
Qed.

(** C4, amended. Every action of a fight happens in an iteration whose
    guard found both healths positive, and A, which acts first, acts only
    while its own health is positive; when the loop exits the guard fails
    and nothing further is done.  Inside an iteration B still performs its
    due attack and heal after A's blow has brought it to 0 or below. *)
Theorem acts_only_in_live_iterations fuel track (s s' : State) :
  fight fuel track s = Some s' ->
  (exists new,
     trace s' = trace s ++ new /\
     Forall (fun e => entered_alive e /\ (ev_side e = SideA -> acted_alive e))
       new) /\
  alive s' = false /\
  (forall fuel', fight fuel' track s' = Some s').
Proof.
  intros Hf. split; [exact (fight_trace _ _ _ _ Hf)|].
  assert (Hd : alive s' = false).
  { apply (fight_invariant (fun _ => True) track (fun _ _ _ => I)
             fuel s s' I Hf). }
  split; [exact Hd | intros fuel'; apply fight_dead, Hd].
Qed.

Lemma acts_only_in_live_iterations_witness :
  let s := start one_shot weak_healer (fresh steady) in
  fight 1 false s = Some (tick false s) /\
  alive (tick false s) = false.
Proof.
  assert (H : fight 1 false (start one_shot weak_healer (fresh steady)) =
              Some (tick false (start one_shot weak_healer (fresh steady))))
    by (vm_compute; reflexivity).
  split; [exact H|].
  exact (proj1 (proj2 (acts_only_in_live_iterations 1 false _ _ H))).
Defined.

Lemma heal_due_iff c :
  heal_due c = true <-> (time_until_heal c <= 0)%Q /\ 0 < healing c.
Proof.
  unfold heal_due. rewrite andb_true_iff, leb_le, Z.ltb_lt. reflexivity.
Qed.

Lemma attack_due_iff c :
  attack_due c = true <-> (time_until_attack c <= 0)%Q.
Proof. apply leb_le. Qed.

Lemma acts_tick_events s :
  acts (tick_events s) =
  (if attack_due (a s) then [(SideA, Attack)] else []) ++
  (if heal_due (a s) then [(SideA, Heal)] else []) ++
  (if attack_due (b s) then [(SideB, Attack)] else []) ++
  (if heal_due (b s) then [(SideB, Heal)] else []).
Proof.
  unfold acts, tick_events.
  destruct (attack_due (a s)), (heal_due (a s)),
    (attack_due (b s)), (heal_due (b s)); reflexivity.
Qed.

Lemma heal_in_tick_events x s :
  (x, Heal) ∈ acts (tick_events s) <-> heal_due (who x s) = true.
Proof.
  rewrite acts_tick_events.
  destruct x; simpl;
    destruct (attack_due (a s)), (heal_due (a s)),
      (attack_due (b s)), (heal_due (b s)); simpl;
    rewrite ?elem_of_cons, ?elem_of_nil; split; intros H;
    try reflexivity; try discriminate; try tauto;
    repeat destruct H as [H|H]; try discriminate H; try contradiction.
Qed.

Lemma tick_timer_heal track x s :
  time_until_heal (who x (tick track s)) =
  ((if heal_due (who x s) then healing_cooldown (who x s)
    else time_until_heal (who x s)) - TICK_LENGTH)%Q.
Proof. destruct x; cbn [who]; [apply tick_timers_a | apply tick_timers_b]. Qed.

(** C8, as stated, fails in its last part: the heal timer of a combatant
    without healing is changed by the loop.  After one iteration of the
    mirror match, A's [time_until_heal] has gone from 0.0 to -0.1. *)
Lemma idle_heal_timer_changes :
  healing (a mirror) = 0 /\
  ~ ((time_until_heal (a (tick false mirror)) == time_until_heal (a mirror))%Q).
Proof. split; [reflexivity | vm_compute; discriminate]. Qed.

(** C8, amended. In every iteration a combatant heals, and has
    [time_until_heal] reset to [healing_cooldown], exactly when
    [time_until_heal <= 0] and [healing > 0] held on entry; a combatant with
    [healing = 0] never heals and never has the timer reset, but the guard
    still reads the timer and the end of the iteration still lowers it by
    [TICK_LENGTH]. *)
Theorem heal_schedule track (x : side) (s : State) :
  let c := who x s in
  let c' := who x (tick track s) in
  trace (tick track s) = trace s ++ tick_events s /\
  ((x, Heal) ∈ acts (tick_events s) <->
   (time_until_heal c <= 0)%Q /\ 0 < healing c) /\
  time_until_heal c' =
    ((if Float.leb (time_until_heal c) 0 && (0 <? healing c)
      then healing_cooldown c else time_until_heal c) - TICK_LENGTH)%Q /\
  (healing c = 0 ->
   ((x, Heal) ∉ acts (tick_events s)) /\
   time_until_heal c' = (time_until_heal c - TICK_LENGTH)%Q).
Proof.
  intros c c'. subst c c'. repeat apply conj.
  - apply tick_trace.
  - rewrite heal_in_tick_events. apply heal_due_iff.
  - rewrite heal_in_tick_events. apply heal_due_iff.
  - apply tick_timer_heal.
  - intros H0. split.
    + rewrite heal_in_tick_events, heal_due_iff. intros [_ H]. lia.
    + rewrite tick_timer_heal. unfold heal_due. rewrite H0.
      rewrite andb_false_r. reflexivity.
Qed.

Lemma heal_schedule_witness :
  healing (who SideA mirror) = 0 /\
  ((SideA, Heal) ∉ acts (tick_events mirror)) /\
  time_until_heal (a (tick false mirror)) = (0.0 - 0.1)%Q.
Proof.
  assert (H : healing (who SideA mirror) = 0) by reflexivity.
  split; [exact H|].
  destruct (heal_schedule false SideA mirror) as (_ & _ & _ & K).
  exact (K H).
Defined.

(** C10. Both characters are created with both timers at 0.0, so an
    iteration entered from the start of a match has A attack, A heal when
    its healing is positive, B attack and B heal when its healing is
    positive, all at tick 0 and time 0.0; only then are the timers set to
    the cooldowns and lowered by the first [TICK_LENGTH].  A match whose two
    healths start positive does enter that iteration. *)
Theorem first_tick_acts track (char_a_params char_b_params : Params)
    (t : Tally) :
  let s := start char_a_params char_b_params t in
  let s' := tick track s in
  (time_until_attack (a s) = 0.0%Q /\ time_until_heal (a s) = 0.0%Q /\
   time_until_attack (b s) = 0.0%Q /\ time_until_heal (b s) = 0.0%Q /\
   current_time s = 0.0%Q /\ tick_count s = 0%nat /\ trace s = []) /\
  trace s' = tick_events s /\
  acts (tick_events s) =
    [(SideA, Attack)] ++
    (if 0 <? p_healing char_a_params then [(SideA, Heal)] else []) ++
    [(SideB, Attack)] ++
    (if 0 <? p_healing char_b_params then [(SideB, Heal)] else []) /\
  Forall (fun e => ev_tick e = 0%nat) (tick_events s) /\
  (time_until_attack (a s') = (p_attack_cooldown char_a_params - TICK_LENGTH)%Q /\
   time_until_attack (b s') = (p_attack_cooldown char_b_params - TICK_LENGTH)%Q /\
   time_until_heal (a s') =
     ((if 0 <? p_healing char_a_params
       then p_healing_cooldown char_a_params else 0.0) - TICK_LENGTH)%Q /\
   time_until_heal (b s') =
     ((if 0 <? p_healing char_b_params
       then p_healing_cooldown char_b_params else 0.0) - TICK_LENGTH)%Q) /\
  (0 < p_health char_a_params -> 0 < p_health char_b_params ->
   forall fuel, fight (S fuel) track s = fight fuel track s').
Proof.
  intros s s'. subst s s'.
  set (s := start char_a_params char_b_params t).
  split; [repeat split; reflexivity|].
  split; [rewrite tick_trace; reflexivity|].
  split; [rewrite acts_tick_events; reflexivity|].
  split.
  { unfold tick_events.
    repeat (apply Forall_app; split);
      match goal with |- Forall _ (if ?c then _ else _) => destruct c end;
      try apply Forall_nil_2; apply Forall_cons_2; try apply Forall_nil_2;
      reflexivity. }
  split.
  { destruct (tick_timers_a track s) as [-> ->].
    destruct (tick_timers_b track s) as [-> ->].
    repeat split; reflexivity. }
  intros Ha Hb fuel. apply fight_step. apply alive_true. split; assumption.
Qed.

Lemma first_tick_acts_witness :
  0 < p_health one_shot /\ 0 < p_health weak_healer /\
  fight 1 false (start one_shot weak_healer (fresh steady)) =
  fight 0 false (tick false (start one_shot weak_healer (fresh steady))).
Proof.
  assert (Ha : 0 < p_health one_shot) by reflexivity.
  assert (Hb : 0 < p_health weak_healer) by reflexivity.
  split; [exact Ha|]. split; [exact Hb|].
  destruct (first_tick_acts false one_shot weak_healer (fresh steady))
    as (_ & _ & _ & _ & _ & K).
  exact (K Ha Hb 0%nat).
Defined.

(** ** The loop over the matches *)

Lemma one_match_ok fuel pa pb track t t' :
  one_match fuel pa pb track t = Ok t' <->
  exists s, fight fuel track (start pa pb t) = Some s /\ t' = finish s t.
Proof.
  unfold one_match. destruct (fight fuel track (start pa pb t)) as [s|].
  - split.
    + intros [= <-]. exists s. split; reflexivity.
    + intros (s' & [= <-] & ->). reflexivity.
  - split; [discriminate | intros (s' & E & _); discriminate].
Qed.

Lemma one_match_no_raise fuel pa pb track t :
  ~ raises (one_match fuel pa pb track t).
Proof.
  unfold one_match, raises.
  destruct (fight fuel track (start pa pb t)); intros [e E]; discriminate.
Qed.

Lemma play_no_raise n fuel pa pb track t :
  ~ raises (play n fuel pa pb track t).
Proof.
  revert t. induction n as [|n IH]; intros t [e E]; simpl in E.
  - discriminate.
  - destruct (one_match fuel pa pb track t) as [t'| e' |] eqn:M; simpl in E.
    + apply (IH t'). exists e. exact E.
    + apply (one_match_no_raise fuel pa pb track t). exists e'. exact M.
    + discriminate.
Qed.

(** A property of the tally kept by every finished match holds at the end
    of the loop, which has then logged [n] more matches. *)
Lemma play_invariant (I : Tally -> Prop) fuel pa pb track :
  (forall t s, I t -> fight fuel track (start pa pb t) = Some s ->
               I (finish s t)) ->
  forall n t t',
    I t -> play n fuel pa pb track t = Ok t' ->
    I t' /\ length (matches t') = (length (matches t) + n)%nat.
Proof.
  intros Hstep n. induction n as [|n IH]; intros t t' HI Hp; simpl in Hp.
  - injection Hp as <-. split; [exact HI | lia].
  - destruct (one_match fuel pa pb track t) as [t1| |] eqn:M;
      simpl in Hp; try discriminate.
    apply one_match_ok in M as (s & Hf & ->).
    destruct (IH _ _ (Hstep _ _ HI Hf) Hp) as [HI' Hlen].
    split; [exact HI'|]. rewrite Hlen. simpl. rewrite length_app. simpl. lia.
Qed.

Lemma count_app {A} (p : A -> bool) l1 l2 :
  count p (l1 ++ l2) = (count p l1 + count p l2)%nat.
Proof. unfold count. rewrite List.filter_app, length_app. reflexivity. Qed.

Lemma count_le {A} (p : A -> bool) l : (count p l <= length l)%nat.
Proof. apply List.filter_length_le. Qed.

Lemma count_disjoint {A} (p q : A -> bool) l :
  (forall x, p x && q x = false) ->
  (count p l + count q l <= length l)%nat.
Proof.
  intros H. unfold count. induction l as [|x l IH]; simpl; [lia|].
  specialize (H x). destruct (p x), (q x); simpl in *; try discriminate; lia.
Qed.

Lemma won_disjoint m : a_won m && b_won m = false.
Proof.
  unfold a_won, b_won.
  destruct (ml_health_b m <? ml_health_a m) eqn:E1;
    destruct (ml_health_a m <? ml_health_b m) eqn:E2; simpl;
    rewrite ?andb_false_r; try reflexivity.
  apply Z.ltb_lt in E1, E2. lia.
Qed.

Lemma award_cases ha hb w :
  award ha hb w =
  if (hb <? ha) && (0 <? ha) then (S (fst w), snd w)
  else if (ha <? hb) && (0 <? hb) then (fst w, S (snd w))
  else w.
Proof. reflexivity. Qed.

Lemma award_spec ha hb (w : nat * nat) :
  let w' := award ha hb w in
  (fst w' = S (fst w) <-> hb < ha /\ 0 < ha) /\
  (fst w' = fst w <-> ~ (hb < ha /\ 0 < ha)) /\
  (snd w' = S (snd w) <-> ha < hb /\ 0 < hb) /\
  (snd w' = snd w <-> ~ (ha < hb /\ 0 < hb)) /\
  (fst w' + snd w' <= fst w + snd w + 1)%nat.
Proof.
  cbv zeta. rewrite award_cases.
  destruct (hb <? ha) eqn:E1; destruct (0 <? ha) eqn:E2;
    destruct (ha <? hb) eqn:E3; destruct (0 <? hb) eqn:E4; simpl;
    rewrite ?Z.ltb_lt, ?Z.ltb_ge in *; repeat split; intros; lia.
Qed.

Lemma finish_counts s t :
  wins_a t = count a_won (matches t) ->
  wins_b t = count b_won (matches t) ->
  wins_a (finish s t) = count a_won (matches (finish s t)) /\
  wins_b (finish s t) = count b_won (matches (finish s t)).
Proof.
  intros Ea Eb. unfold finish; cbn [wins_a wins_b matches].
  rewrite !count_app, <- Ea, <- Eb, award_cases. unfold count; simpl.
  unfold a_won, b_won; simpl.
  destruct (health (b s) <? health (a s)) eqn:E1;
    destruct (0 <? health (a s)) eqn:E2;
    destruct (health (a s) <? health (b s)) eqn:E3;
    destruct (0 <? health (b s)) eqn:E4; simpl;
    rewrite ?Z.ltb_lt, ?Z.ltb_ge in *; split; lia.
Qed.

(** ** Claims about the tally *)

(** C2. A finished match adds one to [wins_a] exactly when A's final
    health is above B's and positive, one to [wins_b] exactly when B's is
    above A's and positive, and nothing otherwise (equal healths, or both
    at 0 or below); never both.  So over a run the two counters are the
    numbers of matches won by each side and sum to at most the number of
    matches played. *)
Theorem decisive_wins fuel (char_a_params char_b_params : Params)
    (num_matches : Z) track (r : Rng) (t : Tally) :
  simulate fuel char_a_params char_b_params num_matches track r = Ok t ->
  (forall t0 t1,
     one_match fuel char_a_params char_b_params track t0 = Ok t1 ->
     exists s,
       fight fuel track (start char_a_params char_b_params t0) = Some s /\
       let health_a := health (a s) in
       let health_b := health (b s) in
       (wins_a t1 = S (wins_a t0) <-> health_b < health_a /\ 0 < health_a) /\
       (wins_a t1 = wins_a t0 <-> ~ (health_b < health_a /\ 0 < health_a)) /\
       (wins_b t1 = S (wins_b t0) <-> health_a < health_b /\ 0 < health_b) /\
       (wins_b t1 = wins_b t0 <-> ~ (health_a < health_b /\ 0 < health_b)) /\
       (health_a = health_b \/ (health_a <= 0 /\ health_b <= 0) ->
        wins_a t1 = wins_a t0 /\ wins_b t1 = wins_b t0) /\
       (wins_a t1 + wins_b t1 <= wins_a t0 + wins_b t0 + 1)%nat) /\
  length (matches t) = Z.to_nat num_matches /\
  wins_a t = count a_won (matches t) /\
  wins_b t = count b_won (matches t) /\
  (wins_a t + wins_b t <= Z.to_nat num_matches)%nat.
Proof.
  intros Hsim. split.
  - intros t0 t1 M. apply one_match_ok in M as (s & Hf & ->).
    exists s. split; [exact Hf|]. cbv zeta. unfold finish; cbn [wins_a wins_b].
    destruct (award_spec (health (a s)) (health (b s)) (wins_a t0, wins_b t0))
      as (H1 & H2 & H3 & H4 & H5). cbn [fst snd] in *.
    split; [exact H1|]. split; [exact H2|]. split; [exact H3|].
    split; [exact H4|]. split; [|exact H5].
    intros H. split; [apply H2 | apply H4]; lia.
  - unfold simulate in Hsim.
    apply (play_invariant
             (fun t => wins_a t = count a_won (matches t) /\
                       wins_b t = count b_won (matches t))) in Hsim.
    + destruct Hsim as [[Ea Eb] Hlen]. simpl in Hlen.
      repeat split; try assumption.
      rewrite Ea, Eb, <- Hlen. apply count_disjoint, won_disjoint.
    + intros t0 s [Ea Eb] _. apply finish_counts; assumption.
    + split; reflexivity.
Qed.

Lemma decisive_wins_witness :
  let t := finish (tick false (start one_shot weak_healer (fresh steady)))
             (fresh steady) in
  first_blow = Ok t /\ (wins_a t + wins_b t <= 1)%nat.
Proof.
  assert (H : simulate 1 one_shot weak_healer 1 false steady =
              Ok (finish (tick false (start one_shot weak_healer (fresh steady)))
                    (fresh steady)))
    by (vm_compute; reflexivity).
  split; [exact H|].
  exact (proj2 (proj2 (proj2 (proj2
           (decisive_wins 1 one_shot weak_healer 1 false steady _ H))))).
Defined.

Lemma win_rate_spec (wa wb : nat) :
  exists q,
    win_rate wa wb = Ok q /\
    ((0 < wa + wb)%nat ->
     (q == 100 * inject_Z (Z.of_nat wa) / inject_Z (Z.of_nat (wa + wb)))%Q) /\
    ((wa + wb = 0)%nat -> q = 50.0%Q) /\
    (0 <= q <= 100)%Q.
Proof.
  unfold win_rate, truediv.
  destruct (0 <? Z.of_nat (wa + wb)) eqn:E.
  - apply Z.ltb_lt in E.
    destruct (Z.of_nat (wa + wb) =? 0) eqn:E0; [apply Z.eqb_eq in E0; lia|].
    simpl. eexists. split; [reflexivity|].
    assert (Hpos : (0 < inject_Z (Z.of_nat (wa + wb)))%Q).
    { unfold Qlt; simpl. lia. }
    assert (Hnum : (0 <= inject_Z (Z.of_nat wa))%Q).
    { unfold Qle; simpl. lia. }
    assert (Hle : (inject_Z (Z.of_nat wa) <= inject_Z (Z.of_nat (wa + wb)))%Q).
    { unfold Qle; simpl. lia. }
    unfold Float.of_int.
    split; [|split].
    + intros _. field. intros H. rewrite H in Hpos. discriminate.
    + intros H. lia.
    + split.
      * apply Qmult_le_0_compat; [|discriminate].
        apply Qle_shift_div_l; [exact Hpos|]. rewrite Qmult_0_l. exact Hnum.
      * apply Qle_trans with (1 * 100)%Q; [|discriminate].
        apply Qmult_le_compat_r; [|discriminate].
        apply Qle_shift_div_r; [exact Hpos|]. rewrite Qmult_1_l. exact Hle.
  - apply Z.ltb_ge in E. eexists. split; [reflexivity|].
    split; [intros; lia|]. split; [reflexivity|].
    split; discriminate.
Qed.

Lemma win_rate_no_raise wa wb : ~ raises (win_rate wa wb).
Proof.
  destruct (win_rate_spec wa wb) as (q & -> & _). intros [e E]. discriminate.
Qed.

Lemma play_more_fuel n fuel fuel' pa pb track t t' :
  (fuel <= fuel')%nat ->
  play n fuel pa pb track t = Ok t' -> play n fuel' pa pb track t = Ok t'.
Proof.
  intros Hle. revert t. induction n as [|n IH]; intros t Hp; simpl in *.
  - exact Hp.
  - destruct (one_match fuel pa pb track t) as [t1| |] eqn:M;
      simpl in Hp; try discriminate.
    apply one_match_ok in M as (s & Hf & ->).
    apply (fight_more_fuel track fuel fuel') in Hf; [|exact Hle].
    unfold one_match at 1. rewrite Hf. simpl. apply IH, Hp.
Qed.

Lemma run_simulation_ok fuel fuel' pa pb n track r t :
  simulate fuel pa pb n track r = Ok t -> (fuel <= fuel')%nat ->
  exists q,
    win_rate (wins_a t) (wins_b t) = Ok q /\
    run_simulation fuel' pa pb n track r =
    Ok (q, if track then Some (histories t) else None).
Proof.
  intros Hsim Hle.
  destruct (win_rate_spec (wins_a t) (wins_b t)) as (q & Hq & _).
  exists q. split; [exact Hq|]. unfold run_simulation.
  unfold simulate in *. rewrite (play_more_fuel _ _ _ _ _ _ _ _ Hle Hsim).
  simpl. rewrite Hq. reflexivity.
Qed.

(** C1. Once the matches of a run are over with tallies [wins_a] and
    [wins_b], [run_simulation] returns (it raises nothing, and more fuel
    returns the same): [100 * wins_a / (wins_a + wins_b)] when the sum is
    positive, exactly 50.0 when it is 0, and in both cases a value between
    0 and 100. *)
Theorem win_rate_closed_form fuel (char_a_params char_b_params : Params)
    (num_matches : Z) track (r : Rng) (t : Tally) :
  simulate fuel char_a_params char_b_params num_matches track r = Ok t ->
  exists win_rate_a,
    (forall fuel', (fuel <= fuel')%nat ->
       run_simulation fuel' char_a_params char_b_params num_matches track r =
       Ok (win_rate_a, if track then Some (histories t) else None)) /\
    ((0 < wins_a t + wins_b t)%nat ->
     (win_rate_a ==
      100 * inject_Z (Z.of_nat (wins_a t)) /
        inject_Z (Z.of_nat (wins_a t + wins_b t)))%Q) /\
    ((wins_a t + wins_b t = 0)%nat -> win_rate_a = 50.0%Q) /\
    (0 <= win_rate_a <= 100)%Q.
Proof.
  intros Hsim.
  destruct (win_rate_spec (wins_a t) (wins_b t)) as (q & Hq & H1 & H2 & H3).
  exists q. split; [|split; [exact H1 | split; [exact H2 | exact H3]]].
  intros fuel' Hle.
  destruct (run_simulation_ok _ _ _ _ _ _ _ _ Hsim Hle) as (q' & Hq' & Hrun).
  rewrite Hq in Hq'. injection Hq' as <-. exact Hrun.
Qed.

Lemma win_rate_closed_form_witness :
  exists q,
    run_simulation 1 one_shot weak_healer 1 false steady = Ok (q, None) /\
    (0 <= q <= 100)%Q.
Proof.
  assert (H : simulate 1 one_shot weak_healer 1 false steady =
              Ok (finish (tick false (start one_shot weak_healer (fresh steady)))
                    (fresh steady)))
    by (vm_compute; reflexivity).
  destruct (win_rate_closed_form 1 one_shot weak_healer 1 false steady _ H)
    as (q & Hrun & _ & _ & Hq).
  exists q. split; [exact (Hrun 1%nat (le_n 1)) | exact Hq].
Defined.

(** ** No validation *)

Lemma run_simulation_no_raise fuel pa pb n track r :
  ~ raises (run_simulation fuel pa pb n track r).
Proof.
  unfold run_simulation, simulate. intros [e E].
  destruct (play (Z.to_nat n) fuel pa pb track (fresh r)) as [t| e' |] eqn:P;
    simpl in E.
  - destruct (win_rate_spec (wins_a t) (wins_b t)) as (q & Hq & _).
    rewrite Hq in E. discriminate.
  - apply (play_no_raise (Z.to_nat n) fuel pa pb track (fresh r)).
    exists e'. exact P.
  - discriminate.
Qed.

(** A match one of whose healths starts at 0 or below is over before its
    first iteration: nothing is drawn, logged or recorded. *)
Lemma play_stillborn n fuel pa pb track t :
  p_health pa <= 0 \/ p_health pb <= 0 ->
  exists t',
    play n fuel pa pb track t = Ok t' /\
    generator t' = generator t /\ histories t' = histories t /\
    exists new,
      matches t' = matches t ++ new /\ length new = n /\
      Forall (fun m => ml_ticks m = 0%nat /\ ml_events m = []) new.
Proof.
  intros Hdead. revert t. induction n as [|n IH]; intros t; simpl.
  - exists t. repeat split. exists []. rewrite app_nil_r.
    repeat split. apply Forall_nil_2.
  - assert (Hs : alive (start pa pb t) = false) by (apply alive_false; exact Hdead).
    unfold one_match. rewrite (fight_dead fuel track _ Hs). simpl.
    destruct (IH (finish (start pa pb t) t))
      as (t' & Hp & Hg & Hh & new & Hm & Hl & Hall).
    exists t'. split; [exact Hp|].
    split; [rewrite Hg; reflexivity|].
    split; [rewrite Hh; unfold finish, start; cbn; destruct (histories t);
            reflexivity|].
    eexists (_ :: new). split; [rewrite Hm; simpl; rewrite <- app_assoc;
                                reflexivity|].
    split; [simpl; rewrite Hl; reflexivity|].
    apply Forall_cons_2; [split; reflexivity | exact Hall].
Qed.

(** C3, as stated, fails: calls with out-of-range cooldowns, healing and
    attack power, or with a trial count of 0, are accepted.  The first runs
    its match to the end (one iteration, A wins, 100.0 is returned); the
    second returns 50.0. *)
Lemma invalid_call_not_rejected :
  invalid_call reckless feeble 1 /\
  ~ raises (run_simulation 1 reckless feeble 1 false steady) /\
  option_map (fun res => Qeq_bool (fst res) 100)
    (returned (run_simulation 1 reckless feeble 1 false steady)) = Some true /\
  map ml_ticks (logs (simulate 1 reckless feeble 1 false steady)) = [1%nat] /\
  invalid_call one_shot weak_healer 0 /\
  ~ raises (run_simulation 1 one_shot weak_healer 0 false steady) /\
  option_map fst (returned (run_simulation 1 one_shot weak_healer 0 false steady))
    = Some 50.0%Q.
Proof.
  split; [left; left; vm_compute; discriminate|].
  split; [apply run_simulation_no_raise|].
  split; [vm_compute; reflexivity|].
  split; [vm_compute; reflexivity|].
  split; [right; right; lia|].
  split; [apply run_simulation_no_raise|].
  vm_compute; reflexivity.
Qed.

(** C3, amended. [run_simulation] validates nothing and raises no error,
    whatever its parameters: a trial count of 0 or below plays no match and
    returns 50.0; a health of 0 or below on either side ends every match
    before its first iteration, with no action and no draw; every other
    out-of-range value is simulated as it is given. *)
Theorem no_validation fuel (char_a_params char_b_params : Params)
    (num_matches : Z) track (r : Rng) :
  ~ raises (run_simulation fuel char_a_params char_b_params num_matches track r) /\
  (num_matches <= 0 ->
   simulate fuel char_a_params char_b_params num_matches track r = Ok (fresh r) /\
   run_simulation fuel char_a_params char_b_params num_matches track r =
   Ok (50.0%Q, if track then Some (∅, ∅) else None)) /\
  (p_health char_a_params <= 0 \/ p_health char_b_params <= 0 ->
   exists t,
     simulate fuel char_a_params char_b_params num_matches track r = Ok t /\
     ~ raises (run_simulation fuel char_a_params char_b_params num_matches
                 track r) /\
     generator t = r /\ histories t = (∅, ∅) /\
     length (matches t) = Z.to_nat num_matches /\
     Forall (fun m => ml_ticks m = 0%nat /\ ml_events m = []) (matches t)).
Proof.
  split; [apply run_simulation_no_raise|]. split.
  - intros Hn. unfold run_simulation, simulate.
    replace (Z.to_nat num_matches) with 0%nat by lia.
    split; reflexivity.
  - intros Hdead. unfold simulate.
    destruct (play_stillborn (Z.to_nat num_matches) fuel char_a_params
                char_b_params track (fresh r) Hdead)
      as (t & Hp & Hg & Hh & new & Hm & Hl & Hall).
    exists t. split; [exact Hp|].
    split; [apply run_simulation_no_raise|].
    split; [exact Hg|]. split; [exact Hh|].
    simpl in Hm. rewrite Hm. split; [exact Hl | exact Hall].
Qed.

Lemma no_validation_witness :
  (-3 <= 0) /\
  run_simulation 7 one_shot weak_healer (-3) true steady =
  Ok (50.0%Q, Some (∅, ∅)).
Proof.
  assert (H : -3 <= 0) by lia.
  split; [exact H|].
  exact (proj2 (proj1 (proj2
           (no_validation 7 one_shot weak_healer (-3) true steady)) H)).
Defined.

(** ** Health histories *)

Lemma dd_get_append n v (h : history) k :
  dd_get (dd_append n v h) k =
  if decide (n = k) then dd_get h n ++ [v] else dd_get h k.
Proof.
  unfold dd_append, dd_get at 1. rewrite lookup_insert.
  destruct (decide (n = k)); reflexivity.
Qed.

Lemma samples_dd_append n v (h : history) k :
  samples (dd_append n v h) k =
  (samples h k + if decide (n = k) then 1 else 0)%nat.
Proof.
  unfold samples. rewrite dd_get_append.
  destruct (decide (n = k)) as [->|]; [rewrite length_app; simpl|]; lia.
Qed.

Lemma no_empty_key_dd_append n v (h : history) :
  no_empty_key h -> no_empty_key (dd_append n v h).
Proof.
  intros H k l. unfold dd_append. rewrite lookup_insert.
  destruct (decide (n = k)).
  - intros [= <-]. destruct (dd_get h n); discriminate.
  - apply H.
Qed.

Lemma samples_pos (h : history) k :
  no_empty_key h -> (0 < samples h k)%nat <-> is_Some (h !! k).
Proof.
  intros H. unfold samples, dd_get. destruct (h !! k) as [l|] eqn:E; simpl.
  - split; [eauto|]. intros _. specialize (H k l E). destruct l; simpl; [congruence|lia].
  - split; [lia|]. intros [? ?]; discriminate.
Qed.

Lemma elem_of_sorted_keys (h : history) k :
  k ∈ sorted_keys h <-> is_Some (h !! k).
Proof.
  unfold sorted_keys. rewrite merge_sort_Permutation.
  rewrite list_elem_of_fmap. split.
  - intros ([k' l] & -> & Hin). apply elem_of_map_to_list in Hin. eauto.
  - intros [l Hl]. exists (k, l). split; [reflexivity|].
    apply elem_of_map_to_list. exact Hl.
Qed.

Lemma sorted_keys_ascending (h : history) :
  StronglySorted lt (sorted_keys h).
Proof.
  unfold sorted_keys.
  assert (Hs : StronglySorted Nat.le (merge_sort Nat.le (map fst (map_to_list h)))).
  { apply StronglySorted_merge_sort; [apply _ | intros x y; lia]. }
  assert (Hn : NoDup (merge_sort Nat.le (map fst (map_to_list h)))).
  { rewrite merge_sort_Permutation. apply NoDup_fst_map_to_list. }
  induction Hs as [|x l Hs IH Hall]; [constructor|].
  apply NoDup_cons in Hn as [Hx Hn].
  constructor; [apply IH, Hn|].
  rewrite Forall_forall in *. intros y Hy.
  specialize (Hall y Hy). assert (x <> y) by (intros ->; apply Hx, Hy).
  lia.
Qed.

Lemma fight_histories fuel s s' :
  fight fuel true s = Some s' ->
  (tick_count s <= tick_count s')%nat /\
  (forall k,
     samples (health_history_a s') k =
     (samples (health_history_a s) k +
      if (tick_count s <=? k)%nat && (k <? tick_count s')%nat then 1 else 0)%nat /\
     samples (health_history_b s') k =
     (samples (health_history_b s) k +
      if (tick_count s <=? k)%nat && (k <? tick_count s')%nat then 1 else 0)%nat) /\
  (no_empty_key (health_history_a s) -> no_empty_key (health_history_a s')) /\
  (no_empty_key (health_history_b s) -> no_empty_key (health_history_b s')).
Proof.
  intros Hf.
  apply (fight_invariant (fun x =>
    (tick_count s <= tick_count x)%nat /\
    (forall k,
       samples (health_history_a x) k =
       (samples (health_history_a s) k +
        if (tick_count s <=? k)%nat && (k <? tick_count x)%nat then 1 else 0)%nat /\
       samples (health_history_b x) k =
       (samples (health_history_b s) k +
        if (tick_count s <=? k)%nat && (k <? tick_count x)%nat then 1 else 0)%nat) /\
    (no_empty_key (health_history_a s) -> no_empty_key (health_history_a x)) /\
    (no_empty_key (health_history_b s) -> no_empty_key (health_history_b x)))
    true) in Hf; [apply Hf | |].
  - intros x _ (Hle & Hk & Ha & Hb).
    destruct (tick_counters true x) as [Hn _].
    destruct (tick_histories true x) as [Hha Hhb].
    rewrite Hn, Hha, Hhb. split; [lia|]. split; [|split].
    + intros k. rewrite !samples_dd_append. destruct (Hk k) as [-> ->].
      destruct (decide (tick_count x = k)) as [<-|Hne].
      * replace (tick_count x <? tick_count x)%nat with false
          by (symmetry; apply Nat.ltb_ge; lia).
        replace (tick_count s <=? tick_count x)%nat with true
          by (symmetry; apply Nat.leb_le; lia).
        replace (tick_count x <? S (tick_count x))%nat with true
          by (symmetry; apply Nat.ltb_lt; lia).
        rewrite andb_false_r. simpl. lia.
      * assert ((k <? S (tick_count x))%nat = (k <? tick_count x)%nat) as ->.
        { apply eq_true_iff_eq. rewrite !Nat.ltb_lt. lia. }
        lia.
    + intros H. apply no_empty_key_dd_append, Ha, H.
    + intros H. apply no_empty_key_dd_append, Hb, H.
  - split; [lia|]. split; [|split; intros H; exact H].
    intros k.
    assert ((tick_count s <=? k)%nat && (k <? tick_count s)%nat = false) as ->.
    { apply andb_false_iff.
      destruct (Nat.leb_spec (tick_count s) k); [right|left; reflexivity].
      apply Nat.ltb_ge. lia. }
    lia.
Qed.

Lemma count_mono {A} (p q : A -> bool) l :
  (forall x, p x = true -> q x = true) -> (count p l <= count q l)%nat.
Proof.
  intros H. unfold count. induction l as [|x l IH]; simpl; [lia|].
  specialize (H x).
  destruct (p x), (q x); simpl; first [lia | discriminate (H eq_refl)].
Qed.

Lemma reached_antitone k k' ms :
  (k <= k')%nat -> (reached k' ms <= reached k ms)%nat.
Proof.
  intros Hle. apply count_mono. intros m. rewrite !Nat.ltb_lt. lia.
Qed.

Lemma traverse_mean (h : history) ticks :
  (forall k, k ∈ ticks -> (0 < samples h k)%nat) ->
  traverse (mean h) ticks = Ok (map (average h) ticks).
Proof.
  induction ticks as [|k ticks IH]; intros H; simpl; [reflexivity|].
  rewrite IH by (intros k' Hk'; apply H; right; exact Hk').
  assert (Hk : (0 < samples h k)%nat) by (apply H; left).
  unfold mean, truediv. fold (samples h k).
  destruct (Z.of_nat (samples h k) =? 0) eqn:E;
    [apply Z.eqb_eq in E; lia|].
  reflexivity.
Qed.

Lemma reached_app k ms m :
  reached k (ms ++ [m]) =
  (reached k ms + if (k <? ml_ticks m)%nat then 1 else 0)%nat.
Proof.
  unfold reached. rewrite count_app. unfold count at 2; simpl.
  destruct (k <? ml_ticks m)%nat; reflexivity.
Qed.

(** What the tally knows of the two histories after any number of tracked
    matches: a sample per match and iteration, and no empty entry. *)
Lemma simulate_histories fuel pa pb n r t :
  simulate fuel pa pb n true r = Ok t ->
  (forall k,
     samples (fst (histories t)) k = reached k (matches t) /\
     samples (snd (histories t)) k = reached k (matches t)) /\
  no_empty_key (fst (histories t)) /\ no_empty_key (snd (histories t)) /\
  length (matches t) = Z.to_nat n.
Proof.
  intros Hsim. unfold simulate in Hsim.
  apply (play_invariant (fun t =>
    (forall k,
       samples (fst (histories t)) k = reached k (matches t) /\
       samples (snd (histories t)) k = reached k (matches t)) /\
    no_empty_key (fst (histories t)) /\ no_empty_key (snd (histories t))))
    in Hsim.
  - destruct Hsim as [(Hk & Ha & Hb) Hlen]. simpl in Hlen. repeat split;
      try assumption; apply Hk.
  - intros t0 s (Hk & Ha & Hb) Hf.
    apply fight_histories in Hf as (_ & Hs & Ha' & Hb').
    unfold finish; cbn [histories matches fst snd].
    split; [|split; [apply Ha', Ha | apply Hb', Hb]].
    intros k. rewrite reached_app. cbn [ml_ticks].
    destruct (Hs k) as [-> ->].
    cbn [start tick_count health_history_a health_history_b].
    destruct (Hk k) as [-> ->]. split; reflexivity.
  - split; [|split]; cbn [fresh histories matches fst snd].
    + intros k. unfold samples, dd_get. rewrite lookup_empty.
      split; reflexivity.
    + intros k l. rewrite lookup_empty. discriminate.
    + intros k l. rewrite lookup_empty. discriminate.
Qed.

(** ** Claim about the trajectory summary *)

(** C9. After a tracked run, each history holds at tick [k] one sample per
    match whose loop ran iteration [k], so later ticks hold no more samples
    than earlier ones and none holds more than the number of matches.  The
    summary lists the ticks that hold a sample, in ascending order and
    without repetition, and gives for each the sum of its samples divided
    by their number; ticks without a sample do not appear. *)
Theorem trajectory_summary fuel (char_a_params char_b_params : Params)
    (num_matches : Z) (r : Rng) (t : Tally) :
  simulate fuel char_a_params char_b_params num_matches true r = Ok t ->
  let ha := fst (histories t) in
  let hb := snd (histories t) in
  let ticks := sorted_keys ha in
  (forall k,
     samples ha k = reached k (matches t) /\
     samples hb k = reached k (matches t)) /\
  (forall k k', (k <= k')%nat ->
     (samples ha k' <= samples ha k <= Z.to_nat num_matches)%nat) /\
  averages ha hb = Ok (ticks, map (average ha) ticks, map (average hb) ticks) /\
  (exists win_rate,
     plot_average_health fuel char_a_params char_b_params num_matches r =
     Ok (win_rate, (ticks, map (average ha) ticks, map (average hb) ticks))) /\
  StronglySorted lt ticks /\
  (forall k, k ∈ ticks <-> (0 < samples ha k)%nat) /\
  (forall k,
     average ha k ==
     inject_Z (sum (dd_get ha k)) / inject_Z (Z.of_nat (length (dd_get ha k))))%Q.
Proof.
  intros Hsim ha hb ticks.
  destruct (simulate_histories _ _ _ _ _ _ Hsim) as (Hk & Hna & Hnb & Hlen).
  fold ha hb in Hk, Hna, Hnb.
  assert (Hin : forall k, k ∈ ticks <-> (0 < samples ha k)%nat).
  { intros k. unfold ticks. rewrite elem_of_sorted_keys.
    symmetry. apply samples_pos, Hna. }
  assert (Hav : averages ha hb =
                Ok (ticks, map (average ha) ticks, map (average hb) ticks)).
  { unfold averages. fold ticks.
    rewrite (traverse_mean ha) by (intros k; apply Hin).
    rewrite (traverse_mean hb).
    - reflexivity.
    - intros k Hkin. apply Hin in Hkin.
      destruct (Hk k) as [E1 E2]. rewrite E2, <- E1. exact Hkin. }
  split; [exact Hk|]. split.
  { intros k k' Hle. destruct (Hk k) as [-> _]. destruct (Hk k') as [-> _].
    split; [apply reached_antitone, Hle|].
    rewrite <- Hlen. apply count_le. }
  split; [exact Hav|]. split.
  { destruct (run_simulation_ok _ _ _ _ _ _ _ _ Hsim (le_n fuel))
      as (q & _ & Hrun).
    exists q. unfold plot_average_health. rewrite Hrun.
    simpl. destruct (histories t) as [h1 h2] eqn:Eh.
    subst ha hb ticks. cbn [fst snd] in *. rewrite Hav. reflexivity. }
  split; [apply sorted_keys_ascending|].
  split; [exact Hin|].
  intros k. reflexivity.
Qed.

Lemma trajectory_summary_witness :
  simulate 2 one_shot weak_healer 2 true uneven = Ok uneven_tally /\
  StronglySorted lt (sorted_keys (fst (histories uneven_tally))) /\
  (samples (fst (histories uneven_tally)) 1
   <= samples (fst (histories uneven_tally)) 0 <= Z.to_nat 2)%nat.
Proof.
  assert (H : simulate 2 one_shot weak_healer 2 true uneven = Ok uneven_tally)
    by (vm_compute; reflexivity).
  split; [exact H|].
  destruct (trajectory_summary 2 one_shot weak_healer 2 uneven _ H)
    as (_ & Hmono & _ & _ & Hsorted & _).
  split; [exact Hsorted | exact (Hmono 0%nat 1%nat (le_S _ _ (le_n 0)))].
Defined.

(** The series of that run: two samples at tick 0, one at tick 1. *)
Example uneven_series :
  option_map
    (fun res => let '(ticks, avg_a, avg_b) := snd res in
                (ticks, map Qred avg_a, map Qred avg_b))
    (returned (plot_average_health 2 one_shot weak_healer 2 uneven)) =
  Some ([0%nat; 1%nat], [100%Q; 95%Q], [10%Q; 10%Q]) /\
  dd_get (fst (histories uneven_tally)) 0 = [100; 100] /\
  dd_get (fst (histories uneven_tally)) 1 = [95] /\
  dd_get (fst (histories uneven_tally)) 2 = [].
Proof. repeat split; vm_compute; reflexivity. Qed.

(** * Further properties of the simulator *)

(** ** The generator *)

Lemma attack_tape c r : tape (snd (attack c r)) = tape r.
Proof.
  destruct (missed r) eqn:E;
    [rewrite attack_miss by exact E | rewrite attack_hit by exact E];
    reflexivity.
Qed.

Lemma heal_tape c r : tape (snd (heal c r)) = tape r.
Proof.
  destruct (missed r) eqn:E;
    [rewrite heal_miss by exact E | rewrite heal_hit by exact E];
    reflexivity.
Qed.

Lemma when_record_rng c s : rng (when c record_health s) = rng s.
Proof. destruct c; reflexivity. Qed.

Lemma when_a_attack_tape c s : tape (rng (when c a_attack s)) = tape (rng s).
Proof.
  destruct c; [|reflexivity]. unfold when. rewrite a_attack_eq.
  apply attack_tape.
Qed.

Lemma when_b_attack_tape c s : tape (rng (when c b_attack s)) = tape (rng s).
Proof.
  destruct c; [|reflexivity]. unfold when. rewrite b_attack_eq.
  apply attack_tape.
Qed.

Lemma when_a_heal_tape c s : tape (rng (when c a_heal s)) = tape (rng s).
Proof.
  destruct c; [|reflexivity]. unfold when. rewrite a_heal_eq.
  apply heal_tape.
Qed.

Lemma when_b_heal_tape c s : tape (rng (when c b_heal s)) = tape (rng s).
Proof.
  destruct c; [|reflexivity]. unfold when. rewrite b_heal_eq.
  apply heal_tape.
Qed.

Lemma advance_rng s : rng (advance s) = rng s.
Proof. reflexivity. Qed.

(** The loop body reads the tape and never writes it. *)
Lemma tick_tape track s : tape (rng (tick track s)) = tape (rng s).
Proof.
  unfold tick; cbv zeta.
  rewrite advance_rng, when_b_heal_tape, when_b_attack_tape, when_a_heal_tape,
    when_a_attack_tape, when_record_rng.
  reflexivity.
Qed.

Lemma all_miss_tape r r' : tape r' = tape r -> all_miss r -> all_miss r'.
Proof. unfold all_miss. intros -> H. exact H. Qed.

Lemma no_miss_tape r r' : tape r' = tape r -> no_miss r -> no_miss r'.
Proof. unfold no_miss. intros -> H. exact H. Qed.

Lemma all_miss_missed r : all_miss r -> missed r = true.
Proof. intros H. apply ltb_lt, H. Qed.

Lemma no_miss_missed r : no_miss r -> missed r = false.
Proof.
  intros H. unfold missed. apply not_true_iff_false. rewrite ltb_lt.
  apply Qle_not_lt, H.
Qed.

(** [stages], with the tape of each intermediate generator. *)
Ltac stages_tape track s :=
  unfold tick; cbv zeta;
  pose proof (stage_record track (enter s)) as H1; cbv zeta in H1;
  set (s1 := when track record_health (enter s)) in *; clearbody s1;
  pose proof (stage_a_attack s1) as H2; cbv zeta in H2;
  pose proof (when_a_attack_tape (attack_due (a s1)) s1) as T2;
  set (s2 := when (attack_due (a s1)) a_attack s1) in *; clearbody s2;
  pose proof (stage_a_heal s2) as H3; cbv zeta in H3;
  pose proof (when_a_heal_tape (heal_due (a s2)) s2) as T3;
  set (s3 := when (heal_due (a s2)) a_heal s2) in *; clearbody s3;
  pose proof (stage_b_attack s3) as H4; cbv zeta in H4;
  pose proof (when_b_attack_tape (attack_due (b s3)) s3) as T4;
  set (s4 := when (attack_due (b s3)) b_attack s3) in *; clearbody s4;
  pose proof (stage_b_heal s4) as H5; cbv zeta in H5;
  set (s5 := when (heal_due (b s4)) b_heal s4) in *; clearbody s5;
  proj;
  destruct H1 as (Ha1 & Hb1 & Hr1 & Ht1 & Hn1 & Hg1 & Hc1 & Hha1 & Hhb1);
  destruct H2 as
    (Ha2 & Hb2 & Ht2 & (Hd2 & Hd2' & Hd2'') & Hc2 & Hn2 & Hha2 & Hhb2 & Hg2);
  destruct H3 as (Ha3 & Hb3 & Ht3 & Hc3 & Hn3 & Hha3 & Hhb3 & Hg3);
  destruct H4 as (Hb4 & Ha4 & Ht4 & Hd4 & Hc4 & Hn4 & Hha4 & Hhb4 & Hg4);
  destruct H5 as (Hb5 & Ha5 & Ht5 & Hc5 & Hn5 & Hha5 & Hhb5 & Hg5);
  rewrite Hd4, Hb3, Hd2'' in Hb5, Ht5;
  rewrite Hb3, Hd2' in Hb4, Ha4, Ht4;
  rewrite Hd2 in Ha3, Ht3;
  rewrite Ha1 in Ha2, Hb2, Ht2, Ha3, Ht3;
  rewrite Hb1 in Hb2, Hb4, Ha4, Ht4, Hb5, Ht5;
  rewrite Hr1 in T2; rewrite T2 in T3; rewrite T3 in T4;
  clear Hd4 Hd2 Hd2' Hd2''.

Lemma all_miss_attack c r : all_miss r -> fst (attack c r) = 0.
Proof.
  intros H. rewrite attack_miss by (apply all_miss_missed, H). reflexivity.
Qed.

Lemma all_miss_heal c r : all_miss r -> snd (fst (heal c r)) = c.
Proof.
  intros H. rewrite heal_miss by (apply all_miss_missed, H). reflexivity.
Qed.

(** When every action misses, an iteration changes no health. *)
Lemma tick_health_all_miss track s :
  all_miss (rng s) ->
  health (a (tick track s)) = health (a s) /\
  health (b (tick track s)) = health (b s).
Proof.
  intros Hm. stages_tape track s.
  assert (M1 : all_miss (rng s1)) by (apply (all_miss_tape (rng s)); congruence).
  assert (M2 : all_miss (rng s2)) by (apply (all_miss_tape (rng s)); congruence).
  assert (M3 : all_miss (rng s3)) by (apply (all_miss_tape (rng s)); congruence).
  assert (M4 : all_miss (rng s4)) by (apply (all_miss_tape (rng s)); congruence).
  rewrite ?Ha5, ?Ha4, ?Ha3, ?Ha2, ?Hb5, ?Hb4, ?Hb3, ?Hb2.
  destruct (attack_due (a s)), (heal_due (a s)),
    (attack_due (b s)), (heal_due (b s));
    proj; rewrite ?all_miss_heal by assumption; proj;
    rewrite ?all_miss_attack by assumption;
    rewrite ?all_miss_heal by assumption; proj;
    rewrite ?all_miss_attack by assumption;
    split; lia.
Qed.

(** A side whose heal is not due ends the iteration with the health the
    opponent's attack left it. *)
Lemma tick_health_b_unhealed track s :
  heal_due (b s) = false -> health (b (tick track s)) = struck s.
Proof.
  intros Hd. stages track s. rewrite Hd in Hb5. unfold struck.
  rewrite ?Hb5, ?Hb4, ?Hb3, ?Hb2, ?Hr1.
  destruct (attack_due (a s)), (attack_due (b s)); reflexivity.
Qed.

Lemma struck_le s : struck s <= health (b s).
Proof.
  unfold struck. pose proof (attack_nonneg (a s) (rng s)).
  destruct (attack_due (a s)); lia.
Qed.

Lemma tick_health_a_unhealed track s :
  heal_due (a s) = false -> health (a (tick track s)) <= health (a s).
Proof.
  intros Hd. stages track s. rewrite Hd in Ha3.
  rewrite ?Ha5, ?Ha4, ?Ha3, ?Ha2.
  pose proof (attack_nonneg (b s2) (rng s3)).
  destruct (attack_due (a s)), (attack_due (b s)); proj; lia.
Qed.

Lemma heal_due_no_healing c : healing c <= 0 -> heal_due c = false.
Proof.
  intros H. unfold heal_due. apply andb_false_iff. right. apply Z.ltb_ge, H.
Qed.

(** ** Fights that never end, and fights that must *)

Lemma fight_all_miss fuel track s :
  all_miss (rng s) -> alive s = true -> fight fuel track s = None.
Proof.
  revert s. induction fuel as [|fuel IH]; intros s Hm Ha.
  - simpl. rewrite Ha. reflexivity.
  - rewrite fight_step by exact Ha. apply IH.
    + apply (all_miss_tape (rng s)); [apply tick_tape | exact Hm].
    + destruct (tick_health_all_miss track s Hm) as [Ea Eb].
      apply alive_true. rewrite Ea, Eb. apply alive_true, Ha.
Qed.

(** X1. The loop has no bound of its own: on a tape on which every action
    misses, no health ever changes, so with positive starting healths and at
    least one match to play [run_simulation] does not return, whatever the
    fuel. *)
Theorem all_miss_never_returns fuel (char_a_params char_b_params : Params)
    (num_matches : Z) track (r : Rng) :
  all_miss r ->
  0 < p_health char_a_params -> 0 < p_health char_b_params ->
  0 < num_matches ->
  run_simulation fuel char_a_params char_b_params num_matches track r =
  OutOfFuel.
Proof.
  intros Hm Ha Hb Hn. unfold run_simulation, simulate.
  destruct (Z.to_nat num_matches) as [|n] eqn:E; [lia|].
  simpl. unfold one_match.
  rewrite fight_all_miss; [reflexivity | exact Hm |].
  apply alive_true. split; assumption.
Qed.

Lemma dud_all_miss : all_miss dud.
Proof. intros n. destruct n; reflexivity. Qed.

Lemma all_miss_never_returns_witness :
  run_simulation 1000 one_shot weak_healer 3 false dud = OutOfFuel.
Proof.
  apply (all_miss_never_returns 1000 one_shot weak_healer 3 false dud).
  - exact dud_all_miss.
  - reflexivity.
  - reflexivity.
  - reflexivity.
Defined.

Lemma int_of_float_ge n x :
  (0 <= x)%Q -> (inject_Z n <= x)%Q -> n <= Float.int_of_float x.
Proof.
  intros H0 Hn. destruct (int_of_float_nonneg x H0) as (_ & _ & Hlt).
  assert (H : (inject_Z n < inject_Z (Float.int_of_float x + 1))%Q)
    by (eapply Qle_lt_trans; eassumption).
  rewrite <- Zlt_Qlt in H. lia.
Qed.

(** Without a miss, and with a positive normal draw, a blow deals at least
    [attack_power]. *)
Lemma no_miss_attack c r :
  no_miss r -> 0 <= attack_power c -> attack_power c <= fst (attack c r).
Proof.
  intros Hm Hp. rewrite attack_hit by (apply no_miss_missed, Hm).
  unfold hit_damage. cbn [fst].
  pose proof (Hm (S (cursor r))) as Hz. unfold MISS in Hz.
  set (z := tape r (S (cursor r))) in *.
  assert (Hap : (0 <= Float.of_int (attack_power c))%Q).
  { unfold Float.of_int. rewrite <- (Zle_Qle 0). exact Hp. }
  assert (Hg : (Float.of_int (attack_power c) <=
                Float.of_int (attack_power c) + z * 8)%Q) by lra.
  assert (H0 : (0 <= Float.of_int (attack_power c) + z * 8)%Q) by lra.
  pose proof (int_of_float_ge _ _ H0 Hg). lia.
Qed.

Lemma relentless_tick track s : relentless s -> relentless (tick track s).
Proof.
  intros (Hd & Hp & Hc & Hh & Hm).
  destruct (tick_static track s)
    as [(_ & Eap & _ & _ & Eac & _) (_ & _ & Ehb & _)].
  destruct (tick_timers_a track s) as [Et _]. rewrite Hd in Et.
  unfold relentless. rewrite Eap, Eac, Ehb.
  split; [|split; [exact Hp | split; [exact Hc | split; [exact Hh |]]]].
  - apply attack_due_iff. rewrite Et. unfold TICK_LENGTH in *. lra.
  - apply (no_miss_tape (rng s)); [apply tick_tape | exact Hm].
Qed.

Lemma relentless_strikes track s :
  relentless s -> health (b (tick track s)) <= health (b s) - 1.
Proof.
  intros (Hd & Hp & Hc & Hh & Hm).
  rewrite tick_health_b_unhealed by (apply heal_due_no_healing, Hh).
  unfold struck. rewrite Hd.
  pose proof (no_miss_attack (a s) (rng s) Hm ltac:(lia)). lia.
Qed.

Lemma fight_relentless fuel track s :
  relentless s -> health (b s) <= Z.of_nat fuel ->
  exists s',
    fight fuel track s = Some s' /\
    (tick_count s' <= tick_count s + Z.to_nat (health (b s)))%nat /\
    tape (rng s') = tape (rng s).
Proof.
  revert s. induction fuel as [|fuel IH]; intros s Hr Hb.
  - exists s. rewrite fight_dead; [repeat split; lia|].
    apply alive_false. right. lia.
  - destruct (alive s) eqn:Ea.
    + rewrite fight_step by exact Ea. apply alive_true in Ea as [_ Hpos].
      pose proof (relentless_strikes track s Hr) as Hs.
      destruct (IH (tick track s) (relentless_tick track s Hr) ltac:(lia))
        as (s' & Hf & Hn & Ht).
      exists s'. split; [exact Hf|].
      destruct (tick_counters track s) as [En _]. rewrite En in Hn.
      rewrite Ht, tick_tape. split; [lia | reflexivity].
    + exists s. rewrite fight_dead by exact Ea. repeat split; lia.
Qed.

Lemma play_relentless n fuel pa pb track t :
  no_miss (generator t) -> 1 <= p_attack_power pa ->
  (p_attack_cooldown pa <= TICK_LENGTH)%Q -> p_healing pb <= 0 ->
  (Z.to_nat (p_health pb) <= fuel)%nat ->
  exists t' new,
    play n fuel pa pb track t = Ok t' /\
    matches t' = matches t ++ new /\ length new = n /\
    Forall (fun m => (ml_ticks m <= Z.to_nat (p_health pb))%nat) new.
Proof.
  intros Hm Hp Hc Hh Hf. revert t Hm.
  induction n as [|n IH]; intros t Hm; simpl.
  - exists t, []. rewrite app_nil_r. repeat split. apply Forall_nil_2.
  - assert (Hr : relentless (start pa pb t)).
    { unfold relentless, start; cbn. repeat split; assumption. }
    destruct (fight_relentless fuel track _ Hr) as (s & Hs & Hn & Ht).
    { cbn. lia. }
    unfold one_match. rewrite Hs. simpl.
    destruct (IH (finish s t)) as (t' & new & Hplay & Hmat & Hlen & Hall).
    { unfold finish; cbn [generator].
      apply (no_miss_tape (generator t)); [exact Ht | exact Hm]. }
    exists t'. eexists (_ :: new). split; [exact Hplay|].
    split; [rewrite Hmat; unfold finish; cbn [matches];
            rewrite <- app_assoc; reflexivity|].
    split; [simpl; rewrite Hlen; reflexivity|].
    apply Forall_cons_2; [exact Hn | exact Hall].
Qed.

(** X2. A run does return when A strikes at every iteration and B cannot
    recover: if no draw is below 0.05, A's attack power is at least 1, its
    attack cooldown at most one tick, and B has no healing, then fuel equal
    to B's starting health is enough for every match, each match ends within
    that many iterations, and [run_simulation] returns a win rate. *)
Theorem relentless_run_returns fuel (char_a_params char_b_params : Params)
    (num_matches : Z) track (r : Rng) :
  no_miss r ->
  1 <= p_attack_power char_a_params ->
  (p_attack_cooldown char_a_params <= TICK_LENGTH)%Q ->
  p_healing char_b_params <= 0 ->
  (Z.to_nat (p_health char_b_params) <= fuel)%nat ->
  exists t win_rate_a,
    simulate fuel char_a_params char_b_params num_matches track r = Ok t /\
    run_simulation fuel char_a_params char_b_params num_matches track r =
      Ok (win_rate_a, if track then Some (histories t) else None) /\
    length (matches t) = Z.to_nat num_matches /\
    Forall (fun m => (ml_ticks m <= Z.to_nat (p_health char_b_params))%nat)
      (matches t).
Proof.
  intros Hm Hp Hc Hh Hf.
  destruct (play_relentless (Z.to_nat num_matches) fuel char_a_params
              char_b_params track (fresh r) Hm Hp Hc Hh Hf)
    as (t & new & Hplay & Hmat & Hlen & Hall).
  destruct (run_simulation_ok fuel fuel _ _ _ _ _ _ Hplay (le_n fuel))
    as (q & _ & Hrun).
  exists t, q. split; [exact Hplay|]. split; [exact Hrun|].
  simpl in Hmat. rewrite Hmat. split; [exact Hlen | exact Hall].
Qed.

Lemma steady_no_miss : no_miss steady.
Proof. intros n. destruct n; vm_compute; discriminate. Qed.

Lemma relentless_run_returns_witness :
  exists t q,
    simulate 100 one_shot one_shot 5 false steady = Ok t /\
    run_simulation 100 one_shot one_shot 5 false steady = Ok (q, None) /\
    length (matches t) = 5%nat.
Proof.
  destruct (relentless_run_returns 100 one_shot one_shot 5 false steady)
    as (t & q & H1 & H2 & H3 & _).
  - exact steady_no_miss.
  - vm_compute; discriminate.
  - vm_compute; discriminate.
  - vm_compute; discriminate.
  - vm_compute; lia.
  - exists t, q. split; [exact H1|]. split; [exact H2 | exact H3].
Defined.

(** ** Healths during and after a fight *)

(** X3. A side without healing never gains health: not in any single
    iteration, and so not over a whole fight. *)
Theorem no_healing_no_gain fuel track (s s' : State) :
  fight fuel track s = Some s' ->
  (forall x, healing (a x) <= 0 ->
             health (a (tick track x)) <= health (a x)) /\
  (forall x, healing (b x) <= 0 ->
             health (b (tick track x)) <= health (b x)) /\
  (healing (a s) <= 0 -> health (a s') <= health (a s)) /\
  (healing (b s) <= 0 -> health (b s') <= health (b s)).
Proof.
  intros Hf.
  assert (Ta : forall x, healing (a x) <= 0 ->
                         health (a (tick track x)) <= health (a x)).
  { intros x Hx. apply tick_health_a_unhealed, heal_due_no_healing, Hx. }
  assert (Tb : forall x, healing (b x) <= 0 ->
                         health (b (tick track x)) <= health (b x)).
  { intros x Hx.
    rewrite tick_health_b_unhealed by (apply heal_due_no_healing, Hx).
    apply struck_le. }
  split; [exact Ta|]. split; [exact Tb|].
  apply (fight_invariant
           (fun x => healing (a x) = healing (a s) /\
                     healing (b x) = healing (b s) /\
                     (healing (a s) <= 0 -> health (a x) <= health (a s)) /\
                     (healing (b s) <= 0 -> health (b x) <= health (b s)))
           track) in Hf.
  - destruct Hf as [(_ & _ & Ha & Hb) _]. split; assumption.
  - intros x _ (Eha & Ehb & Ha & Hb).
    destruct (tick_static track x) as [(_ & _ & Ea & _) (_ & _ & Eb & _)].
    rewrite Ea, Eb. split; [exact Eha|]. split; [exact Ehb|]. split.
    + intros H. specialize (Ha H). specialize (Ta x ltac:(lia)). lia.
    + intros H. specialize (Hb H). specialize (Tb x ltac:(lia)). lia.
  - repeat split; lia.
Qed.

Lemma no_healing_no_gain_witness :
  let s := start one_shot weak_healer (fresh steady) in
  fight 1 false s = Some (tick false s) /\
  health (a (tick false s)) <= health (a s).
Proof.
  assert (H : fight 1 false (start one_shot weak_healer (fresh steady)) =
              Some (tick false (start one_shot weak_healer (fresh steady))))
    by (vm_compute; reflexivity).
  assert (K : healing (a (start one_shot weak_healer (fresh steady))) <= 0)
    by (vm_compute; discriminate).
  split; [exact H|].
  exact (proj1 (proj2 (proj2 (no_healing_no_gain 1 false _ _ H))) K).
Defined.

(** X4. A finished match has at most one survivor, and the survivor takes
    it: [wins_a] grows exactly when A ends with positive health (B is then
    at 0 or below), [wins_b] exactly when B does, and neither grows exactly
    when both end at 0 or below. *)
Theorem survivor_takes_the_match fuel (char_a_params char_b_params : Params)
    track (t0 t1 : Tally) :
  one_match fuel char_a_params char_b_params track t0 = Ok t1 ->
  exists s,
    fight fuel track (start char_a_params char_b_params t0) = Some s /\
    ~ (0 < health (a s) /\ 0 < health (b s)) /\
    (wins_a t1 = S (wins_a t0) <-> 0 < health (a s)) /\
    (wins_b t1 = S (wins_b t0) <-> 0 < health (b s)) /\
    (wins_a t1 = wins_a t0 /\ wins_b t1 = wins_b t0 <->
     health (a s) <= 0 /\ health (b s) <= 0).
Proof.
  intros M. apply one_match_ok in M as (s & Hf & ->).
  exists s. split; [exact Hf|].
  assert (Hd : alive s = false).
  { apply (fight_invariant (fun _ => True) track (fun _ _ _ => I)
             fuel _ s I Hf). }
  apply alive_false in Hd.
  unfold finish; cbn [wins_a wins_b].
  destruct (award_spec (health (a s)) (health (b s)) (wins_a t0, wins_b t0))
    as (H1 & H2 & H3 & H4 & _). cbn [fst snd] in *.
  split; [lia|]. split; [rewrite H1; lia|]. split; [rewrite H3; lia|].
  rewrite H2, H4. lia.
Qed.

Lemma survivor_takes_the_match_witness :
  exists s,
    fight 1 false (start one_shot weak_healer (fresh steady)) = Some s /\
    ~ (0 < health (a s) /\ 0 < health (b s)).
Proof.
  assert (H : one_match 1 one_shot weak_healer false (fresh steady) =
              Ok (finish (tick false (start one_shot weak_healer (fresh steady)))
                    (fresh steady)))
    by (vm_compute; reflexivity).
  destruct (survivor_takes_the_match 1 one_shot weak_healer false _ _ H)
    as (s & H1 & H2 & _).
  exists s. split; [exact H1 | exact H2].
Defined.

(** ** Tracking only records *)

Lemma forget_record c s : forget (when c record_health s) = forget s.
Proof. destruct c; reflexivity. Qed.

Lemma forget_a_attack s :
  forget (when (attack_due (a s)) a_attack s) =
  when (attack_due (a (forget s))) a_attack (forget s).
Proof.
  cbn [forget a]. unfold when. destruct (attack_due (a s)); [|reflexivity].
  rewrite !a_attack_eq. reflexivity.
Qed.

Lemma forget_a_heal s :
  forget (when (heal_due (a s)) a_heal s) =
  when (heal_due (a (forget s))) a_heal (forget s).
Proof.
  cbn [forget a]. unfold when. destruct (heal_due (a s)); [|reflexivity].
  rewrite !a_heal_eq. reflexivity.
Qed.

Lemma forget_b_attack s :
  forget (when (attack_due (b s)) b_attack s) =
  when (attack_due (b (forget s))) b_attack (forget s).
Proof.
  cbn [forget b]. unfold when. destruct (attack_due (b s)); [|reflexivity].
  rewrite !b_attack_eq. reflexivity.
Qed.

Lemma forget_b_heal s :
  forget (when (heal_due (b s)) b_heal s) =
  when (heal_due (b (forget s))) b_heal (forget s).
Proof.
  cbn [forget b]. unfold when. destruct (heal_due (b s)); [|reflexivity].
  rewrite !b_heal_eq. reflexivity.
Qed.

Lemma forget_advance s : forget (advance s) = advance (forget s).
Proof. reflexivity. Qed.

Lemma forget_enter s : forget (enter s) = enter (forget s).
Proof. reflexivity. Qed.

(** Up to the histories, an iteration does the same with and without
    tracking. *)
Lemma forget_tick track s : forget (tick track s) = tick false (forget s).
Proof.
  unfold tick; cbv zeta.
  rewrite forget_advance, forget_b_heal, forget_b_attack, forget_a_heal,
    forget_a_attack, forget_record, forget_enter.
  reflexivity.
Qed.

Lemma forget_fight fuel track s :
  fight fuel false (forget s) = option_map forget (fight fuel track s).
Proof.
  revert s. induction fuel as [|fuel IH]; intros s.
  - simpl. change (alive (forget s)) with (alive s).
    destruct (alive s); reflexivity.
  - change (fight (S fuel) false (forget s)) with
      (if alive s then fight fuel false (tick false (forget s))
       else Some (forget s)).
    change (fight (S fuel) track s) with
      (if alive s then fight fuel track (tick track s) else Some s).
    destruct (alive s); [|reflexivity].
    rewrite <- (forget_tick track). apply IH.
Qed.

Lemma forget_play n fuel pa pb track t :
  play n fuel pa pb false (forget_tally t) =
  map_result forget_tally (play n fuel pa pb track t).
Proof.
  revert t. induction n as [|n IH]; intros t; [reflexivity|].
  simpl. unfold one_match.
  change (start pa pb (forget_tally t)) with (forget (start pa pb t)).
  rewrite (forget_fight fuel track).
  destruct (fight fuel track (start pa pb t)) as [s|]; [|reflexivity].
  simpl. rewrite <- IH. reflexivity.
Qed.

(** X5. Tracking only records: with and without [track_health] a run plays
    the same matches on the same draws, ends with the same tallies and the
    same generator, and returns the same win rate; without tracking no
    history is kept at all. *)
Theorem tracking_only_records fuel (char_a_params char_b_params : Params)
    (num_matches : Z) (r : Rng) :
  simulate fuel char_a_params char_b_params num_matches false r =
    map_result forget_tally
      (simulate fuel char_a_params char_b_params num_matches true r) /\
  map_result fst
    (run_simulation fuel char_a_params char_b_params num_matches false r) =
  map_result fst
    (run_simulation fuel char_a_params char_b_params num_matches true r) /\
  map_result snd
    (run_simulation fuel char_a_params char_b_params num_matches false r) =
  map_result (fun _ => None)
    (run_simulation fuel char_a_params char_b_params num_matches true r).
Proof.
  assert (E : simulate fuel char_a_params char_b_params num_matches false r =
              map_result forget_tally
                (simulate fuel char_a_params char_b_params num_matches true r)).
  { unfold simulate.
    change (fresh r) with (forget_tally (fresh r)) at 1. apply forget_play. }
  split; [exact E|].
  unfold run_simulation. rewrite E.
  destruct (simulate fuel char_a_params char_b_params num_matches true r)
    as [t| |]; simpl; [|split; reflexivity | split; reflexivity].
  destruct (win_rate_spec (wins_a t) (wins_b t)) as (q & -> & _).
  split; reflexivity.
Qed.

(** ** What the histories hold *)

Lemma within_dd_append hi n v (h : history) :
  0 < v <= hi -> within hi h -> within hi (dd_append n v h).
Proof.
  intros Hv Hh k x. rewrite dd_get_append.
  destruct (decide (n = k)) as [->|]; [|apply Hh].
  rewrite elem_of_app, list_elem_of_singleton.
  intros [Hx | ->]; [exact (Hh k x Hx) | exact Hv].
Qed.

Lemma opens_with_dd_append v0 n v (h : history) :
  (n = 0%nat -> v = v0) -> opens_with v0 h -> opens_with v0 (dd_append n v h).
Proof.
  intros Hv Hh x. rewrite dd_get_append.
  destruct (decide (n = 0%nat)) as [->|]; [|apply Hh].
  rewrite elem_of_app, list_elem_of_singleton.
  intros [Hx | ->]; [exact (Hh x Hx) | apply Hv; reflexivity].
Qed.

Lemma within_empty hi : within hi ∅.
Proof.
  intros k v. unfold dd_get. rewrite lookup_empty. simpl.
  intros H. apply elem_of_nil in H. contradiction.
Qed.

Lemma opens_with_empty v0 : opens_with v0 ∅.
Proof.
  intros v. unfold dd_get. rewrite lookup_empty. simpl.
  intros H. apply elem_of_nil in H. contradiction.
Qed.

(** What a fight started from full health adds to the histories. *)
Lemma fight_samples fuel track s s' :
  fight fuel track s = Some s' ->
  health (a s) = max_health (a s) -> health (b s) = max_health (b s) ->
  tick_count s = 0%nat ->
  within (max_health (a s)) (health_history_a s) ->
  within (max_health (b s)) (health_history_b s) ->
  opens_with (max_health (a s)) (health_history_a s) ->
  opens_with (max_health (b s)) (health_history_b s) ->
  within (max_health (a s)) (health_history_a s') /\
  within (max_health (b s)) (health_history_b s') /\
  opens_with (max_health (a s)) (health_history_a s') /\
  opens_with (max_health (b s)) (health_history_b s') /\
  (alive s = true -> (1 <= tick_count s')%nat).
Proof.
  intros Hf Ea Eb En Wa Wb Oa Ob.
  apply (fight_invariant (fun x =>
    max_health (a x) = max_health (a s) /\
    max_health (b x) = max_health (b s) /\
    health (a x) <= max_health (a s) /\ health (b x) <= max_health (b s) /\
    (tick_count x = 0%nat ->
     health (a x) = max_health (a s) /\ health (b x) = max_health (b s)) /\
    within (max_health (a s)) (health_history_a x) /\
    within (max_health (b s)) (health_history_b x) /\
    opens_with (max_health (a s)) (health_history_a x) /\
    opens_with (max_health (b s)) (health_history_b x) /\
    (alive s = true -> x = s \/ (1 <= tick_count x)%nat)) track) in Hf.
  - destruct Hf as [(_ & _ & _ & _ & _ & Wa' & Wb' & Oa' & Ob' & Hn) Hdead].
    split; [exact Wa'|]. split; [exact Wb'|]. split; [exact Oa'|].
    split; [exact Ob'|].
    intros Hal. destruct (Hn Hal) as [-> | H]; [congruence | exact H].
  - intros x Hx (Ema & Emb & La & Lb & H0 & Wa' & Wb' & Oa' & Ob' & Hn).
    apply alive_true in Hx as [Pa Pb].
    destruct (tick_static track x) as [(_ & _ & _ & Sa & _) (_ & _ & _ & Sb & _)].
    destruct (tick_health_le_max track x) as [Ka Kb].
    destruct (tick_counters track x) as [Ec _].
    destruct (tick_histories track x) as [Eha Ehb].
    rewrite Sa, Sb, Ec, Eha, Ehb.
    split; [exact Ema|]. split; [exact Emb|].
    split; [rewrite <- Ema; apply Ka; lia|].
    split; [rewrite <- Emb; apply Kb; lia|].
    split; [intros; lia|].
    destruct track.
    + split; [apply within_dd_append; [lia | exact Wa']|].
      split; [apply within_dd_append; [lia | exact Wb']|].
      split; [apply opens_with_dd_append; [intros H; apply H0, H | exact Oa']|].
      split; [apply opens_with_dd_append; [intros H; apply H0, H | exact Ob']|].
      intros _. right. lia.
    + split; [exact Wa'|]. split; [exact Wb'|]. split; [exact Oa'|].
      split; [exact Ob'|]. intros _. right. lia.
  - split; [reflexivity|]. split; [reflexivity|]. split; [lia|].
    split; [lia|]. split; [intros _; split; assumption|].
    split; [exact Wa|]. split; [exact Wb|]. split; [exact Oa|].
    split; [exact Ob|]. intros _. left. reflexivity.
Qed.

Lemma count_all {A} (p : A -> bool) l :
  Forall (fun x => p x = true) l -> count p l = length l.
Proof.
  unfold count. induction 1 as [|x l Hx _ IH]; simpl; [reflexivity|].
  rewrite Hx. simpl. rewrite IH. reflexivity.
Qed.

Lemma simulate_samples fuel pa pb n r t :
  simulate fuel pa pb n true r = Ok t ->
  within (p_health pa) (fst (histories t)) /\
  within (p_health pb) (snd (histories t)) /\
  opens_with (p_health pa) (fst (histories t)) /\
  opens_with (p_health pb) (snd (histories t)) /\
  (0 < p_health pa -> 0 < p_health pb ->
   Forall (fun m => (0 <? ml_ticks m)%nat = true) (matches t)).
Proof.
  intros Hsim. unfold simulate in Hsim.
  apply (play_invariant (fun t =>
    within (p_health pa) (fst (histories t)) /\
    within (p_health pb) (snd (histories t)) /\
    opens_with (p_health pa) (fst (histories t)) /\
    opens_with (p_health pb) (snd (histories t)) /\
    (0 < p_health pa -> 0 < p_health pb ->
     Forall (fun m => (0 <? ml_ticks m)%nat = true) (matches t)))) in Hsim.
  - apply Hsim.
  - intros t0 s (Wa & Wb & Oa & Ob & Hall) Hf.
    destruct (fight_samples _ _ _ _ Hf) as (Wa' & Wb' & Oa' & Ob' & Hn);
      try reflexivity; try assumption.
    unfold finish; cbn [histories matches fst snd].
    split; [exact Wa'|]. split; [exact Wb'|]. split; [exact Oa'|].
    split; [exact Ob'|].
    intros Pa Pb. apply Forall_app. split; [apply Hall; assumption|].
    apply Forall_cons_2; [|apply Forall_nil_2]. cbn [ml_ticks].
    apply Nat.ltb_lt. apply Hn. apply alive_true. split; assumption.
  - cbn [fresh histories matches fst snd].
    split; [apply within_empty|]. split; [apply within_empty|].
    split; [apply opens_with_empty|]. split; [apply opens_with_empty|].
    intros _ _. apply Forall_nil_2.
Qed.

(** X6. The health histories of a tracked run hold only healths seen by
    the loop guard: every sample is positive and at most the side's
    starting health, every sample at tick 0 is the starting health, and
    when both starting healths are positive tick 0 holds one sample per
    match. *)
Theorem samples_are_live_healths fuel (char_a_params char_b_params : Params)
    (num_matches : Z) (r : Rng) (t : Tally) :
  simulate fuel char_a_params char_b_params num_matches true r = Ok t ->
  let ha := fst (histories t) in
  let hb := snd (histories t) in
  within (p_health char_a_params) ha /\
  within (p_health char_b_params) hb /\
  opens_with (p_health char_a_params) ha /\
  opens_with (p_health char_b_params) hb /\
  (0 < p_health char_a_params -> 0 < p_health char_b_params ->
   samples ha 0 = Z.to_nat num_matches /\
   samples hb 0 = Z.to_nat num_matches).
Proof.
  intros Hsim ha hb.
  destruct (simulate_histories _ _ _ _ _ _ Hsim) as (Hk & _ & _ & Hlen).
  destruct (simulate_samples _ _ _ _ _ _ Hsim) as (Wa & Wb & Oa & Ob & Hall).
  fold ha hb in Hk, Wa, Wb, Oa, Ob.
  split; [exact Wa|]. split; [exact Wb|]. split; [exact Oa|].
  split; [exact Ob|]. intros Pa Pb.
  destruct (Hk 0%nat) as [-> ->]. unfold reached.
  rewrite count_all by (apply Hall; assumption).
  split; exact Hlen.
Qed.

Lemma samples_are_live_healths_witness :
  simulate 2 one_shot weak_healer 2 true uneven = Ok uneven_tally /\
  samples (fst (histories uneven_tally)) 0 = 2%nat /\
  within 100 (fst (histories uneven_tally)).
Proof.
  assert (H : simulate 2 one_shot weak_healer 2 true uneven = Ok uneven_tally)
    by (vm_compute; reflexivity).
  assert (Pa : 0 < p_health one_shot) by reflexivity.
  assert (Pb : 0 < p_health weak_healer) by reflexivity.
  destruct (samples_are_live_healths 2 one_shot weak_healer 2 uneven _ H)
    as (Wa & _ & _ & _ & K).
  split; [exact H|]. split; [exact (proj1 (K Pa Pb)) | exact Wa].
Defined.

(** ** What the summary plots *)

Lemma sum_bounds hi (l : list Z) :
  (forall v, v ∈ l -> 0 < v <= hi) ->
  Z.of_nat (length l) <= sum l <= hi * Z.of_nat (length l).
Proof.
  induction l as [|x l IH]; intros H; simpl; [lia|].
  assert (Hx : 0 < x <= hi) by (apply H; left).
  assert (Hl : forall v, v ∈ l -> 0 < v <= hi) by (intros v Hv; apply H; right; exact Hv).
  specialize (IH Hl). lia.
Qed.

Lemma sum_constant v0 (l : list Z) :
  (forall v, v ∈ l -> v = v0) -> sum l = v0 * Z.of_nat (length l).
Proof.
  induction l as [|x l IH]; intros H; simpl; [lia|].
  assert (Hx : x = v0) by (apply H; left).
  assert (Hl : forall v, v ∈ l -> v = v0) by (intros v Hv; apply H; right; exact Hv).
  specialize (IH Hl). lia.
Qed.

Lemma average_bounds hi (h : history) k :
  within hi h -> (0 < samples h k)%nat ->
  (0 < average h k <= inject_Z hi)%Q.
Proof.
  intros Hw Hs. unfold average, samples in *. unfold Float.of_int.
  pose proof (sum_bounds hi (dd_get h k) (Hw k)) as [Hlo Hhi].
  set (n := Z.of_nat (length (dd_get h k))) in *.
  assert (Hn : (0 < inject_Z n)%Q) by (rewrite <- (Zlt_Qlt 0); lia).
  split.
  - apply Qlt_shift_div_l; [exact Hn|]. rewrite Qmult_0_l.
    rewrite <- (Zlt_Qlt 0). lia.
  - apply Qle_shift_div_r; [exact Hn|]. rewrite <- inject_Z_mult.
    rewrite <- Zle_Qle. exact Hhi.
Qed.

Lemma average_opening v0 (h : history) :
  opens_with v0 h -> (0 < samples h 0)%nat ->
  (average h 0 == inject_Z v0)%Q.
Proof.
  intros Ho Hs. unfold average, samples in *. unfold Float.of_int.
  rewrite (sum_constant v0 (dd_get h 0) Ho).
  set (n := Z.of_nat (length (dd_get h 0))) in *.
  assert (Hn : ~ (inject_Z n == 0)%Q).
  { intros H. assert (n = 0) by (apply (inject_Z_injective n 0), H). lia. }
  rewrite inject_Z_mult. field. exact Hn.
Qed.

Lemma plot_ok fuel pa pb n r t :
  simulate fuel pa pb n true r = Ok t ->
  exists win_rate,
    plot_average_health fuel pa pb n r =
    Ok (win_rate,
        (sorted_keys (fst (histories t)),
         map (average (fst (histories t))) (sorted_keys (fst (histories t))),
         map (average (snd (histories t))) (sorted_keys (fst (histories t))))) /\
    forall k, k ∈ sorted_keys (fst (histories t)) ->
              (0 < samples (fst (histories t)) k)%nat /\
              (0 < samples (snd (histories t)) k)%nat.
Proof.
  intros Hsim.
  destruct (simulate_histories _ _ _ _ _ _ Hsim) as (Hk & Hna & Hnb & Hlen).
  assert (Hin : forall k, k ∈ sorted_keys (fst (histories t)) ->
                (0 < samples (fst (histories t)) k)%nat /\
                (0 < samples (snd (histories t)) k)%nat).
  { intros k Hkin. apply elem_of_sorted_keys in Hkin.
    apply (samples_pos _ _ Hna) in Hkin.
    destruct (Hk k) as [E1 E2]. rewrite E2, <- E1. split; exact Hkin. }
  destruct (run_simulation_ok _ _ _ _ _ _ _ _ Hsim (le_n fuel))
    as (q & _ & Hrun).
  exists q. split; [|exact Hin].
  unfold plot_average_health. rewrite Hrun. simpl.
  destruct (histories t) as [ha hb]. cbn [fst snd] in *.
  unfold averages.
  rewrite (traverse_mean ha) by (intros k Hkin; apply Hin, Hkin).
  rewrite (traverse_mean hb) by (intros k Hkin; apply Hin, Hkin).
  reflexivity.
Qed.

(** X7. What [plot_average_health] plots stays between 0 and full health:
    every average of side A is positive and at most A's starting health,
    likewise for B, and the averages at tick 0, when there are any, are the
    starting healths themselves. *)
Theorem averages_within_health fuel (char_a_params char_b_params : Params)
    (num_matches : Z) (r : Rng) (t : Tally) :
  simulate fuel char_a_params char_b_params num_matches true r = Ok t ->
  exists win_rate ticks avg_health_a avg_health_b,
    plot_average_health fuel char_a_params char_b_params num_matches r =
      Ok (win_rate, (ticks, avg_health_a, avg_health_b)) /\
    Forall (fun q => (0 < q <= inject_Z (p_health char_a_params))%Q)
      avg_health_a /\
    Forall (fun q => (0 < q <= inject_Z (p_health char_b_params))%Q)
      avg_health_b /\
    (0%nat ∈ ticks ->
     (average (fst (histories t)) 0 == inject_Z (p_health char_a_params))%Q /\
     (average (snd (histories t)) 0 == inject_Z (p_health char_b_params))%Q).
Proof.
  intros Hsim.
  destruct (simulate_samples _ _ _ _ _ _ Hsim) as (Wa & Wb & Oa & Ob & _).
  destruct (plot_ok _ _ _ _ _ _ Hsim) as (q & Hplot & Hin).
  exists q. do 3 eexists. split; [exact Hplot|].
  split; [|split].
  - apply Forall_fmap, Forall_forall. intros k Hk. simpl.
    apply average_bounds; [exact Wa | apply Hin, Hk].
  - apply Forall_fmap, Forall_forall. intros k Hk. simpl.
    apply average_bounds; [exact Wb | apply Hin, Hk].
  - intros H0. split; apply average_opening; try assumption; apply Hin, H0.
Qed.

Lemma averages_within_health_witness :
  exists win_rate ticks avg_health_a avg_health_b,
    plot_average_health 2 one_shot weak_healer 2 uneven =
      Ok (win_rate, (ticks, avg_health_a, avg_health_b)) /\
    Forall (fun q => (0 < q <= inject_Z 100)%Q) avg_health_a.
Proof.
  assert (H : simulate 2 one_shot weak_healer 2 true uneven = Ok uneven_tally)
    by (vm_compute; reflexivity).
  destruct (averages_within_health 2 one_shot weak_healer 2 uneven _ H)
    as (q & ticks & avg_a & avg_b & Hplot & Ha & _).
  exists q, ticks, avg_a, avg_b. split; [exact Hplot | exact Ha].
Defined.

(** X8. With no match played, or a starting health of 0 or below on either
    side, no iteration ever runs, so nothing is recorded and
    [plot_average_health] has three empty series to plot; it divides
    nothing and raises nothing. *)
Theorem nothing_to_plot fuel (char_a_params char_b_params : Params)
    (num_matches : Z) (r : Rng) :
  num_matches <= 0 \/ p_health char_a_params <= 0 \/
    p_health char_b_params <= 0 ->
  exists win_rate,
    plot_average_health fuel char_a_params char_b_params num_matches r =
    Ok (win_rate, ([], [], [])) /\
    (num_matches <= 0 -> win_rate = 50.0%Q).
Proof.
  intros H.
  assert (Ht : exists t,
    simulate fuel char_a_params char_b_params num_matches true r = Ok t /\
    histories t = (∅, ∅) /\ (num_matches <= 0 -> t = fresh r)).
  { destruct (Z_le_gt_dec num_matches 0) as [Hn | Hn].
    - exists (fresh r). unfold simulate.
      replace (Z.to_nat num_matches) with 0%nat by lia.
      repeat split; reflexivity.
    - destruct H as [H | H]; [lia|].
      destruct (play_stillborn (Z.to_nat num_matches) fuel char_a_params
                  char_b_params true (fresh r) H)
        as (t & Hp & _ & Hh & _).
      exists t. split; [exact Hp|]. split; [exact Hh | lia]. }
  destruct Ht as (t & Hsim & Hh & Hfresh).
  destruct (run_simulation_ok _ _ _ _ _ _ _ _ Hsim (le_n fuel))
    as (q & Hq & Hrun).
  exists q. split.
  - unfold plot_average_health. rewrite Hrun, Hh. reflexivity.
  - intros Hn. rewrite (Hfresh Hn) in Hq. simpl in Hq.
    injection Hq as <-. reflexivity.
Qed.

Lemma nothing_to_plot_witness :
  exists win_rate,
    plot_average_health 9 one_shot weak_healer 0 steady =
    Ok (win_rate, ([], [], [])).
Proof.
  destruct (nothing_to_plot 9 one_shot weak_healer 0 steady) as (q & H & _).
  - left. lia.
  - exists q. exact H.
Defined.

(** X9. The complement used by the callers is B's win rate: 100 minus the
    rate computed from [wins_a] and [wins_b] equals the rate computed from
    the two tallies swapped, the neutral 50.0 included. *)
Theorem win_rate_complement (wa wb : nat) :
  exists qa qb,
    win_rate wa wb = Ok qa /\ win_rate wb wa = Ok qb /\
    (100 - qa == qb)%Q.
Proof.
  unfold win_rate, truediv.
  replace (wb + wa)%nat with (wa + wb)%nat by lia.
  destruct (0 <? Z.of_nat (wa + wb)) eqn:E.
  - apply Z.ltb_lt in E.
    destruct (Z.of_nat (wa + wb) =? 0) eqn:E0; [apply Z.eqb_eq in E0; lia|].
    simpl. do 2 eexists. split; [reflexivity|]. split; [reflexivity|].
    unfold Float.of_int.
    assert (Hne : ~ (inject_Z (Z.of_nat (wa + wb)) == 0)%Q).
    { intros H. change 0%Q with (inject_Z 0) in H.
      rewrite inject_Z_injective in H. lia. }
    rewrite Nat2Z.inj_add, inject_Z_plus in *. field. exact Hne.
  - do 2 eexists. split; [reflexivity|]. split; [reflexivity|]. reflexivity.
Qed.

(** ** More on the two actions *)

Lemma int_of_float_mono x y :
  (x <= y)%Q -> Float.int_of_float x <= Float.int_of_float y.
Proof.
  intros Hxy.
  destruct (Qlt_le_dec x 0) as [Hx | Hx];
    destruct (Qlt_le_dec y 0) as [Hy | Hy].
  - destruct (int_of_float_nonpos x (Qlt_le_weak _ _ Hx)) as (_ & Hlo & _).
    destruct (int_of_float_nonpos y (Qlt_le_weak _ _ Hy)) as (_ & _ & Hhi).
    assert (H : (inject_Z (Float.int_of_float x - 1) <
                 inject_Z (Float.int_of_float y))%Q) by lra.
    rewrite <- Zlt_Qlt in H. lia.
  - destruct (int_of_float_nonpos x (Qlt_le_weak _ _ Hx)) as (Hlo & _).
    destruct (int_of_float_nonneg y Hy) as (Hhi & _). lia.
  - lra.
  - destruct (int_of_float_nonneg x Hx) as (_ & Hlo & _).
    destruct (int_of_float_nonneg y Hy) as (_ & _ & Hhi).
    assert (H : (inject_Z (Float.int_of_float x) <
                 inject_Z (Float.int_of_float y + 1))%Q) by lra.
    rewrite <- Zlt_Qlt in H. lia.
Qed.

(** X10. On the same draws a higher attack power never deals less damage:
    [attack] is monotone in [attack_power], a miss staying a miss. *)
Theorem attack_monotone (c1 c2 : Character) (r : Rng) :
  attack_power c1 <= attack_power c2 ->
  fst (attack c1 r) <= fst (attack c2 r) /\
  snd (attack c1 r) = snd (attack c2 r).
Proof.
  intros Hle. destruct (missed r) eqn:E.
  - rewrite !attack_miss by exact E. split; [reflexivity | reflexivity].
  - rewrite !attack_hit by exact E. cbn [fst snd]. split; [|reflexivity].
    unfold hit_damage.
    assert (H : Float.int_of_float
                  (Float.of_int (attack_power c1) + tape r (S (cursor r)) * 8) <=
                Float.int_of_float
                  (Float.of_int (attack_power c2) + tape r (S (cursor r)) * 8)).
    { apply int_of_float_mono. unfold Float.of_int.
      apply Qplus_le_l. rewrite <- Zle_Qle. exact Hle. }
    lia.
Qed.

Lemma attack_monotone_witness :
  fst (attack (init "B" weak_healer) steady) <=
  fst (attack (init "A" one_shot) steady).
Proof.
  apply (attack_monotone (init "B" weak_healer) (init "A" one_shot) steady).
  vm_compute; discriminate.
Defined.

(** X11. What a heal that does not miss does to a health within the cap
    depends on the sign of the truncated amount: an amount of 0 or more
    never lowers the health and leaves a full health full; a negative
    amount (a noise factor below 0) lowers the health by that much.  Such
    a draw exists for every character with positive healing. *)
Theorem heal_helps_or_backfires (c : Character) (r : Rng) :
  health c <= max_health c -> missed r = false ->
  let c' := snd (fst (heal c r)) in
  (0 <= healing_amount c r ->
   health c <= health c' <= max_health c /\
   (health c = max_health c -> health c' = max_health c)) /\
  (healing_amount c r < 0 ->
   health c' = health c + healing_amount c r /\ health c' < health c) /\
  (0 < healing c ->
   health (snd (fst (heal c backfire))) = health c - healing c).
Proof.
  intros Hcap Hm c'. subst c'. rewrite heal_health, Hm.
  unfold healed_health. fold (healing_amount c r).
  split; [intros H; lia|]. split; [intros H; lia|].
  intros Hh. rewrite heal_health.
  replace (missed backfire) with false by (vm_compute; reflexivity).
  unfold healed_health.
  assert (E : Float.int_of_float
                (Float.of_int (healing c) *
                 (1.0 + tape backfire (S (cursor backfire)) * 0.2))%Q
              = - healing c).
  { unfold Float.int_of_float, Float.of_int. simpl.
    change (10 * Z.pos (1 * 10) + -10 * 2 * 10) with (-100).
    change (Z.pos (1 * (10 * (1 * 10)))) with 100.
    replace (healing c * -100) with (- healing c * 100) by lia.
    apply Z.quot_mul. lia. }
  rewrite E. lia.
Qed.

Lemma heal_helps_or_backfires_witness :
  health fallen <= max_health fallen /\ missed steady = false /\
  0 <= healing_amount fallen steady /\
  health fallen <= health (snd (fst (heal fallen steady))).
Proof.
  assert (H1 : health fallen <= max_health fallen) by (vm_compute; discriminate).
  assert (H2 : missed steady = false) by reflexivity.
  assert (H3 : 0 <= healing_amount fallen steady) by (vm_compute; discriminate).
  split; [exact H1|]. split; [exact H2|]. split; [exact H3|].
  exact (proj1 (proj1 (proj1 (heal_helps_or_backfires fallen steady H1 H2) H3))).
Defined.

(** * The optimization agent *)

Lemma note_kept name params (m : gmap string pdict) x p :
  m !! x = Some p -> note name params m !! x = Some p.
Proof.
  intros H. unfold note. destruct (m !! name) eqn:E; [exact H|].
  rewrite lookup_insert_ne; [exact H | congruence].
Qed.

Lemma note_other name params (m : gmap string pdict) x :
  name <> x -> note name params m !! x = m !! x.
Proof.
  intros H. unfold note. destruct (m !! name); [reflexivity|].
  apply lookup_insert_ne, H.
Qed.

Lemma note_new name params (m : gmap string pdict) :
  m !! name = None -> note name params m !! name = Some params.
Proof. intros H. unfold note. rewrite H. apply lookup_insert_eq. Qed.

Lemma collect_kept (l : list imbalance) (m : gmap string pdict) x p :
  m !! x = Some p ->
  foldl (fun m data =>
           note (character_b data) (character_b_params data)
             (note (character_a data) (character_a_params data) m)) m l !! x
  = Some p.
Proof.
  revert m. induction l as [|d l IH]; intros m H; simpl; [exact H|].
  apply IH. apply note_kept, note_kept, H.
Qed.

Lemma collect_unmentioned (l : list imbalance) (m : gmap string pdict) x :
  Forall (fun e => ~ mentions x e) l ->
  foldl (fun m data =>
           note (character_b data) (character_b_params data)
             (note (character_a data) (character_a_params data) m)) m l !! x
  = m !! x.
Proof.
  intros H. revert m. induction H as [|d l Hd _ IH]; intros m; simpl;
    [reflexivity|].
  rewrite IH. unfold mentions in Hd.
  rewrite !note_other; [reflexivity | |]; intros E; apply Hd; tauto.
Qed.

(** X12. [run_optimization_agent] takes each archetype's parameters from
    the first entry of the imbalance data that names it, side A before side
    B within an entry; later entries never replace them, and an archetype
    no entry names gets the empty dict. *)
Theorem first_mention_wins (before : list imbalance) (x : string) :
  Forall (fun e => ~ mentions x e) before ->
  archetype_params before !! x = None /\
  current_params x before = ∅ /\
  (forall data after,
     mentions x data ->
     let found :=
       if decide (character_a data = x) then character_a_params data
       else character_b_params data in
     archetype_params (before ++ data :: after) !! x = Some found /\
     current_params x (before ++ data :: after) = found).
Proof.
  intros Hb.
  assert (E0 : archetype_params before !! x = None).
  { unfold archetype_params. rewrite collect_unmentioned by exact Hb.
    apply lookup_empty. }
  split; [exact E0|]. split; [unfold current_params; rewrite E0; reflexivity|].
  intros data after Hm found.
  assert (E : archetype_params (before ++ data :: after) !! x = Some found).
  { unfold archetype_params. rewrite foldl_app. simpl.
    apply collect_kept. fold (archetype_params before). subst found.
    destruct (decide (character_a data = x)) as [Ea | Ea].
    - apply note_kept. rewrite Ea. apply note_new, E0.
    - destruct Hm as [Hm | Hm]; [contradiction|].
      rewrite Hm. apply note_new. rewrite note_other by exact Ea. exact E0. }
  split; [exact E|]. unfold current_params. rewrite E. reflexivity.
Qed.

Lemma first_mention_wins_witness :
  let data :=
    {| matchup := "Healer vs Attacker"; win_rate_a := 70;
       character_a := "Healer"; character_b := "Attacker";
       character_a_params := to_dict INITIAL_HEALER_PARAMS;
       character_b_params := to_dict INITIAL_ATTACKER_PARAMS |} in
  current_params "Attacker" [data] = to_dict INITIAL_ATTACKER_PARAMS /\
  current_params "Tank" [data] = ∅.
Proof.
  intros data.
  assert (H0 : Forall (fun e => ~ mentions "Attacker" e) []) by apply Forall_nil_2.
  assert (H1 : Forall (fun e => ~ mentions "Tank" e) [data]).
  { apply Forall_cons_2; [|apply Forall_nil_2].
    intros [H | H]; discriminate H. }
  split.
  - destruct (first_mention_wins [] "Attacker" H0) as (_ & _ & K).
    exact (proj2 (K data [] (or_intror eq_refl))).
  - exact (proj1 (proj2 (first_mention_wins [data] "Tank" H1))).
Defined.

(** X13. The change [apply_parameter_change] reports: [amount] is the
    distance between the new and the current value, so it is never negative
    and does not tell an increase from a decrease.  [amount_percentage]
    is that distance relative to the current value itself, not to its size:
    it is 0 exactly when nothing changed and positive for a positive
    current value, but 0 or below for a negative one; for a current value
    of 0 it is 0.0 when nothing changed and 100.0 otherwise. *)
Theorem change_amount_facts (new_value current_value : Q) :
  let amount := fst (change_amount new_value current_value) in
  let amount_percentage := snd (change_amount new_value current_value) in
  (0 <= amount)%Q /\
  (amount == 0 <-> new_value == current_value)%Q /\
  (forall d,
     fst (change_amount (current_value + d) current_value) ==
     fst (change_amount (current_value - d) current_value))%Q /\
  ((0 < current_value)%Q ->
   (amount_percentage == 100 * amount / current_value)%Q /\
   (0 <= amount_percentage)%Q /\
   (amount_percentage == 0 <-> new_value == current_value)%Q) /\
  ((current_value < 0)%Q -> (amount_percentage <= 0)%Q) /\
  ((current_value == 0)%Q ->
   amount_percentage =
   if Qeq_bool new_value 0 then 0.0%Q else 100.0%Q).
Proof.
  cbv zeta. unfold change_amount. cbn [fst snd].
  set (amount := Qabs (new_value - current_value)).
  assert (H0 : (0 <= amount)%Q) by apply Qabs_nonneg.
  assert (Hz : (amount == 0 <-> new_value == current_value)%Q).
  { unfold amount. split; intros H.
    - assert (K : (Qabs (new_value - current_value) <= 0)%Q) by (rewrite H; lra).
      apply Qabs_Qle_condition in K. lra.
    - assert (E : (new_value - current_value == 0)%Q) by lra.
      rewrite E. reflexivity. }
  split; [exact H0|]. split; [exact Hz|]. split.
  { intros d.
    assert (E1 : (current_value + d - current_value == d)%Q) by ring.
    assert (E2 : (current_value - d - current_value == - d)%Q) by ring.
    rewrite E1, E2, Qabs_opp. reflexivity. }
  split; [|split].
  - intros Hpos.
    assert (Hne : Qeq_bool current_value 0 = false).
    { apply not_true_iff_false. rewrite Qeq_bool_iff. lra. }
    rewrite Hne. simpl negb. cbv iota.
    assert (Hc : ~ (current_value == 0)%Q) by lra.
    split; [field; exact Hc|]. split.
    + apply Qmult_le_0_compat; [|lra].
      apply Qle_shift_div_l; [exact Hpos | lra].
    + rewrite <- Hz. split; intros H.
      * assert (K : (amount / current_value * 100 * current_value ==
                     amount * 100)%Q) by (field; exact Hc).
        rewrite H in K. lra.
      * rewrite H. field. exact Hc.
  - intros Hneg.
    assert (Hne : Qeq_bool current_value 0 = false).
    { apply not_true_iff_false. rewrite Qeq_bool_iff. lra. }
    rewrite Hne. simpl negb. cbv iota.
    assert (Hq : (amount / current_value <= 0)%Q).
    { assert (Hn : (0 < - current_value)%Q) by lra.
      assert (K : (0 <= amount / - current_value)%Q)
        by (apply Qle_shift_div_l; [exact Hn | lra]).
      assert (E : (amount / current_value == - (amount / - current_value))%Q)
        by (field; try split; lra).
      lra. }
    assert (K : (amount / current_value * 100 <= 0 * 100)%Q)
      by (apply Qmult_le_compat_r; [exact Hq | lra]).
    lra.
  - intros Hzero.
    assert (He : Qeq_bool current_value 0 = true)
      by (apply Qeq_bool_iff, Hzero).
    rewrite He. simpl negb. cbv iota.
    destruct (Qeq_bool amount 0) eqn:Ea; destruct (Qeq_bool new_value 0) eqn:En;
      try reflexivity.
    + apply Qeq_bool_iff in Ea. apply Hz in Ea.
      apply not_true_iff_false in En. rewrite Qeq_bool_iff in En. lra.
    + apply Qeq_bool_iff in En.
      apply not_true_iff_false in Ea. rewrite Qeq_bool_iff, Hz in Ea. lra.
Qed.

Lemma change_amount_facts_witness :
  (0 < 10)%Q /\
  (snd (change_amount 12 10) == 100 * fst (change_amount 12 10) / 10)%Q /\
  (-10 < 0)%Q /\ (snd (change_amount (-12) (-10)) <= 0)%Q.
Proof.
  assert (H1 : (0 < 10)%Q) by reflexivity.
  assert (H2 : (-10 < 0)%Q) by reflexivity.
  destruct (change_amount_facts 12 10) as (_ & _ & _ & K & _).
  destruct (change_amount_facts (-12) (-10)) as (_ & _ & _ & _ & L & _).
  split; [exact H1|]. split; [exact (proj1 (K H1))|].
  split; [exact H2 | exact (L H2)].
Defined.

(** * The balancing script *)

Lemma simulation_ok fuel pa pb r q g :
  simulation fuel pa pb r = Ok (q, g) ->
  (0 <= q <= 100)%Q /\
  map_result fst (run_simulation fuel pa pb 1000 false r) = Ok q.
Proof.
  unfold simulation, run_simulation. intros H.
  destruct (simulate fuel pa pb 1000 false r) as [t| |]; simpl in *;
    try discriminate.
  destruct (win_rate_spec (wins_a t) (wins_b t)) as (q' & Hq & _ & _ & Hr).
  rewrite Hq in *. simpl in *. injection H as <- <-.
  split; [exact Hr | reflexivity].
Qed.

Lemma round_body_ext agent fuel (f g : Round -> result Round) st :
  (forall x, round_number x = (round_number st + 1)%nat -> f x = g x) ->
  round_body agent fuel f st = round_body agent fuel g st.
Proof.
  intros H. unfold round_body.
  destruct (simulation fuel (current_healer_params st)
              (current_attacker_params st) (dice st)) as [[q r]| |];
    simpl; try reflexivity.
  destruct (balanced q); [reflexivity|].
  destruct (agent _ _ _) as [[decision fixes]|]; [|reflexivity].
  destruct (simulation fuel (healer fixes) (attacker fixes) r) as [[q' r']| |];
    simpl; try reflexivity.
  apply H. reflexivity.
Qed.

(** The loop as the script writes it: the guard, then the body, then the
    loop again. *)
Lemma balance_eq agent fuel st :
  balance agent fuel st =
  if (round_number st <? max_rounds)%nat
  then round_body agent fuel (balance agent fuel) st
  else Ok st.
Proof.
  unfold balance.
  destruct (round_number st <? max_rounds)%nat eqn:E.
  - apply Nat.ltb_lt in E.
    destruct (max_rounds - round_number st)%nat as [|k] eqn:Ek; [lia|].
    simpl. apply Nat.ltb_lt in E. rewrite E.
    apply round_body_ext. intros x Hx.
    replace (max_rounds - round_number x)%nat with k by lia. reflexivity.
  - apply Nat.ltb_ge in E.
    replace (max_rounds - round_number st)%nat with 0%nat by lia.
    reflexivity.
Qed.

Lemma rounds_spec agent fuel k st st' :
  rounds agent fuel k st = Ok st' ->
  (round_number st <= round_number st')%nat /\
  (round_number st' <= Nat.max (round_number st) max_rounds)%nat /\
  (round_number st' = round_number st ->
   current_healer_params st' = current_healer_params st /\
   current_attacker_params st' = current_attacker_params st) /\
  exists new,
    history_buffer st' = history_buffer st ++ new /\
    map iteration new =
      seq (S (round_number st)) (round_number st' - round_number st) /\
    Forall sound_entry new.
Proof.
  revert st. induction k as [|k IH]; intros st H; simpl in H.
  - injection H as <-. split; [lia|]. split; [lia|].
    split; [intros _; split; reflexivity|].
    exists []. rewrite app_nil_r, Nat.sub_diag.
    repeat split. apply Forall_nil_2.
  - destruct (round_number st <? max_rounds)%nat eqn:E.
    2:{ injection H as <-. split; [lia|]. split; [lia|].
        split; [intros _; split; reflexivity|].
        exists []. rewrite app_nil_r, Nat.sub_diag.
        repeat split. apply Forall_nil_2. }
    apply Nat.ltb_lt in E. unfold round_body in H.
    destruct (simulation fuel (current_healer_params st)
                (current_attacker_params st) (dice st)) as [[q r]| |] eqn:S1;
      simpl in H; try discriminate.
    destruct (balanced q) eqn:B.
    { injection H as <-. cbn. split; [lia|]. split; [lia|].
      split; [intros _; split; reflexivity|].
      exists []. rewrite app_nil_r, Nat.sub_diag.
      repeat split. apply Forall_nil_2. }
    destruct (agent _ _ _) as [[decision fixes]|].
    2:{ injection H as <-. cbn. split; [lia|]. split; [lia|].
        split; [intros _; split; reflexivity|].
        exists []. rewrite app_nil_r, Nat.sub_diag.
        repeat split. apply Forall_nil_2. }
    destruct (simulation fuel (healer fixes) (attacker fixes) r)
      as [[q' r']| |] eqn:S2; simpl in H; try discriminate.
    apply IH in H. cbn [round_number history_buffer] in H.
    destruct H as (H1 & H2 & _ & new & Hh & Hi & Hs).
    split; [lia|]. split; [lia|]. split; [intros; lia|].
    eexists (_ :: new). split; [rewrite Hh, <- app_assoc; reflexivity|].
    split.
    + simpl. rewrite Hi.
      replace (round_number st' - round_number st)%nat
        with (S (round_number st' - (round_number st + 1)))%nat by lia.
      simpl. replace (round_number st + 1)%nat with (S (round_number st)) by lia.
      reflexivity.
    + apply Forall_cons_2; [|exact Hs].
      unfold sound_entry; cbn.
      split; [exact B|].
      split; [apply (simulation_ok _ _ _ _ _ _ S1)
             | apply (simulation_ok _ _ _ _ _ _ S2)].
Qed.

(** X14. Whatever the service answers, a balancing run that starts at
    round 0 with an empty history ends after at most 50 rounds; its history
    has one entry per completed round, numbered 1, 2, ... in order; each
    entry records a starting win rate outside the band from 40 to 60 and two
    win rates between 0 and 100; and if no round completed the parameters
    are still the starting ones. *)
Theorem balancing_run_is_bounded
    (agent : nat -> list imbalance -> list history_entry ->
             option (ParameterChangeDecision * ProposedFix))
    (fuel : nat) (st st' : Round) :
  round_number st = 0%nat -> history_buffer st = [] ->
  balance agent fuel st = Ok st' ->
  (round_number st' <= max_rounds)%nat /\
  length (history_buffer st') = round_number st' /\
  map iteration (history_buffer st') = seq 1 (round_number st') /\
  Forall sound_entry (history_buffer st') /\
  (round_number st' = 0%nat ->
   current_healer_params st' = current_healer_params st /\
   current_attacker_params st' = current_attacker_params st).
Proof.
  intros Hr Hh Hb. unfold balance in Hb.
  apply rounds_spec in Hb as (H1 & H2 & H3 & new & Hn & Hi & Hs).
  rewrite Hr in *. rewrite Hh in Hn. simpl in Hn. subst new.
  rewrite Nat.sub_0_r in Hi.
  split; [unfold max_rounds in *; lia|].
  split; [rewrite <- (length_map iteration), Hi; apply length_seq|].
  split; [exact Hi|]. split; [exact Hs | exact H3].
Qed.

Lemma balancing_run_is_bounded_witness :
  exists st',
    balance one_answer_agent 1 (opening steady) = Ok st' /\
    length (history_buffer st') = round_number st' /\
    map iteration (history_buffer st') = seq 1 (round_number st').
Proof.
  assert (E : exists st', balance one_answer_agent 1 (opening steady) = Ok st')
    by (vm_compute; eexists; reflexivity).
  destruct E as [st' E]. exists st'. split; [exact E|].
  destruct (balancing_run_is_bounded one_answer_agent 1 (opening steady) st'
              eq_refl eq_refl E) as (_ & H1 & H2 & _).
  split; [exact H1 | exact H2].
Defined.

Lemma rounds_stop agent fuel k st st' :
  (max_rounds - round_number st <= k)%nat ->
  rounds agent fuel k st = Ok st' ->
  (round_number st' < max_rounds)%nat ->
  exists win_rate r,
    simulation fuel (current_healer_params st') (current_attacker_params st') r
      = Ok (win_rate, dice st') /\
    (balanced win_rate = true \/
     agent (round_number st') (imbalance_data win_rate st')
       (history_buffer st') = None).
Proof.
  revert st. induction k as [|k IH]; intros st Hk H Hlt; simpl in H.
  - injection H as <-. lia.
  - destruct (round_number st <? max_rounds)%nat eqn:E.
    2:{ injection H as <-. apply Nat.ltb_ge in E. lia. }
    unfold round_body in H.
    destruct (simulation fuel (current_healer_params st)
                (current_attacker_params st) (dice st)) as [[q r]| |] eqn:S1;
      simpl in H; try discriminate.
    destruct (balanced q) eqn:B.
    { injection H as <-. exists q, (dice st). cbn.
      split; [exact S1 | left; exact B]. }
    destruct (agent (round_number st) (imbalance_data q st) (history_buffer st))
      as [[decision fixes]|] eqn:A.
    2:{ injection H as <-. exists q, (dice st). cbn.
        split; [exact S1 | right; exact A]. }
    destruct (simulation fuel (healer fixes) (attacker fixes) r)
      as [[q' r']| |] eqn:S2; simpl in H; try discriminate.
    apply Nat.ltb_lt in E.
    apply IH in H; [exact H | cbn [round_number]; lia | exact Hlt].
Qed.

(** X15. The loop gives up early only for one of its two reasons: if it
    ends before round 50, then the last simulation of the parameters it
    ends with either gave a win rate within the band from 40 to 60, or the
    agent had no answer for that round. *)
Theorem early_end_has_a_reason
    (agent : nat -> list imbalance -> list history_entry ->
             option (ParameterChangeDecision * ProposedFix))
    (fuel : nat) (st st' : Round) :
  balance agent fuel st = Ok st' ->
  (round_number st' < max_rounds)%nat ->
  exists win_rate r,
    simulation fuel (current_healer_params st') (current_attacker_params st') r
      = Ok (win_rate, dice st') /\
    (0 <= win_rate <= 100)%Q /\
    ((40 <= win_rate <= 60)%Q \/
     agent (round_number st') (imbalance_data win_rate st')
       (history_buffer st') = None).
Proof.
  intros Hb Hlt. unfold balance in Hb.
  destruct (rounds_stop agent fuel _ st st' (le_n _) Hb Hlt)
    as (q & r & Hs & Hor).
  exists q, r. split; [exact Hs|].
  split; [apply (simulation_ok _ _ _ _ _ _ Hs)|].
  destruct Hor as [B | A]; [left | right; exact A].
  unfold balanced in B. apply andb_true_iff in B as [B1 B2].
  split; apply leb_le; assumption.
Qed.

Lemma early_end_has_a_reason_witness :
  exists st' win_rate r,
    balance one_answer_agent 1 (opening steady) = Ok st' /\
    simulation 1 (current_healer_params st') (current_attacker_params st') r
      = Ok (win_rate, dice st').
Proof.
  assert (E : exists st',
    balance one_answer_agent 1 (opening steady) = Ok st' /\
    (round_number st' <? max_rounds)%nat = true)
    by (vm_compute; eexists; split; reflexivity).
  destruct E as (st' & E & Hlt). apply Nat.ltb_lt in Hlt.
  destruct (early_end_has_a_reason one_answer_agent 1 (opening steady) st' E Hlt)
    as (q & r & Hs & _).
  exists st', q, r. split; [exact E | exact Hs].
Defined.

(** X16. The winner the script names: the rate it prints is the larger of
    the win rate and its complement, so for a win rate between 0 and 100 it
    lies between 50 and 100; the healer is named exactly above 50.  At
    exactly 50 the report before the loop names the attacker while the
    report inside the loop names a tie; everywhere else the two agree. *)
Theorem named_winner (win_rate : Q) :
  (0 <= win_rate <= 100)%Q ->
  let before := initial_report win_rate in
  let inside := round_report win_rate in
  (50 <= snd before <= 100)%Q /\ (50 <= snd inside <= 100)%Q /\
  (snd before == Qmax win_rate (100 - win_rate))%Q /\
  (snd inside == Qmax win_rate (100 - win_rate))%Q /\
  (fst before = "Healer" <-> (50 < win_rate)%Q) /\
  (fst inside = "Healer" <-> (50 < win_rate)%Q) /\
  (fst inside = "Tie" <-> (win_rate == 50)%Q) /\
  ((win_rate == 50)%Q -> fst before = "Attacker") /\
  (~ (win_rate == 50)%Q -> fst before = fst inside).
Proof.
  intros Hr. cbv zeta. unfold initial_report, round_report.
  destruct (Float.ltb 50 win_rate) eqn:E1.
  - apply ltb_lt in E1. cbn [fst snd].
    assert (Hm : (Qmax win_rate (100 - win_rate) == win_rate)%Q)
      by (apply Q.max_l; lra).
    rewrite Hm.
    repeat split; try lra; try reflexivity; try discriminate;
      intros; try assumption; try lra.
  - apply not_true_iff_false in E1. rewrite ltb_lt in E1.
    destruct (Float.ltb win_rate 50) eqn:E2.
    + apply ltb_lt in E2. cbn [fst snd].
      assert (Hm : (Qmax win_rate (100 - win_rate) == 100 - win_rate)%Q)
        by (apply Q.max_r; lra).
      rewrite Hm.
      repeat split; try lra; try reflexivity; try discriminate;
        intros; try assumption; try lra.
    + apply not_true_iff_false in E2. rewrite ltb_lt in E2. cbn [fst snd].
      assert (E : (win_rate == 50)%Q) by lra.
      assert (Hm : (Qmax win_rate (100 - win_rate) == 50)%Q)
        by (rewrite Q.max_l by lra; exact E).
      rewrite Hm.
      repeat split; try lra; try reflexivity; try discriminate;
        intros; try assumption; try lra; try contradiction.
Qed.

Lemma named_winner_witness :
  (0 <= 50 <= 100)%Q /\
  fst (initial_report 50) = "Attacker" /\ fst (round_report 50) = "Tie".
Proof.
  assert (H : (0 <= 50 <= 100)%Q) by (split; discriminate).
  destruct (named_winner 50 H) as (_ & _ & _ & _ & _ & _ & T & A & _).
  split; [exact H|]. split; [apply A; reflexivity | apply T; reflexivity].
Defined.

(** * The ticks of the summary *)

Lemma reached_pos k ms : (0 < reached k ms)%nat <-> (k < longest ms)%nat.
Proof.
  unfold reached, count, longest. induction ms as [|m ms IH]; simpl; [lia|].
  destruct (k <? ml_ticks m)%nat eqn:E; simpl.
  - apply Nat.ltb_lt in E. lia.
  - apply Nat.ltb_ge in E. rewrite IH. lia.
Qed.

Lemma seq_ascending a n : StronglySorted lt (seq a n).
Proof.
  revert a. induction n as [|n IH]; intros a; simpl; constructor.
  - apply IH.
  - apply Forall_forall. intros x Hx. apply elem_of_seq in Hx. lia.
Qed.

Lemma sorted_keys_NoDup (h : history) : NoDup (sorted_keys h).
Proof.
  unfold sorted_keys. rewrite merge_sort_Permutation.
  apply NoDup_fst_map_to_list.
Qed.

(** X17. The ticks [plot_average_health] plots have no gap: after a
    tracked run they are exactly 0, 1, ..., up to the last iteration of the
    longest match. *)
Theorem ticks_have_no_gap fuel (char_a_params char_b_params : Params)
    (num_matches : Z) (r : Rng) (t : Tally) :
  simulate fuel char_a_params char_b_params num_matches true r = Ok t ->
  sorted_keys (fst (histories t)) = seq 0 (longest (matches t)) /\
  exists win_rate avg_health_a avg_health_b,
    plot_average_health fuel char_a_params char_b_params num_matches r =
    Ok (win_rate,
        (seq 0 (longest (matches t)), avg_health_a, avg_health_b)) /\
    length avg_health_a = longest (matches t) /\
    length avg_health_b = longest (matches t).
Proof.
  intros Hsim.
  destruct (simulate_histories _ _ _ _ _ _ Hsim) as (Hk & Hna & _ & _).
  assert (E : sorted_keys (fst (histories t)) = seq 0 (longest (matches t))).
  { apply (StronglySorted_unique_strong lt).
    - intros x1 x2 _ _ H1 H2. lia.
    - apply sorted_keys_ascending.
    - apply seq_ascending.
    - apply NoDup_Permutation;
        [apply sorted_keys_NoDup | apply NoDup_seq |].
      intros k. rewrite elem_of_sorted_keys, <- (samples_pos _ _ Hna).
      destruct (Hk k) as [-> _]. rewrite reached_pos, elem_of_seq. lia. }
  split; [exact E|].
  destruct (plot_ok _ _ _ _ _ _ Hsim) as (q & Hplot & _).
  rewrite E in Hplot. do 3 eexists. split; [exact Hplot|].
  rewrite !length_map, length_seq. split; reflexivity.
Qed.

Lemma ticks_have_no_gap_witness :
  simulate 2 one_shot weak_healer 2 true uneven = Ok uneven_tally /\
  sorted_keys (fst (histories uneven_tally)) = [0%nat; 1%nat].
Proof.
  assert (H : simulate 2 one_shot weak_healer 2 true uneven = Ok uneven_tally)
    by (vm_compute; reflexivity).
  split; [exact H|].
  exact (proj1 (ticks_have_no_gap 2 one_shot weak_healer 2 uneven _ H)).
Defined.
